(** * AI Control Plane: the shared ingest pipeline of [app/main.py]

    A shallow embedding of [_process_ingest], [ingest_api] and
    [ingest_slack].  The pipeline is stateful Python: it reads and writes
    the idempotency store, appends to the structured log, draws uuids and
    reads the clock, and may raise.  It is embedded as a state-and-error
    monad over an explicit [World]. *)

From Stdlib Require Import ZArith.
From stdpp Require Import gmap strings pretty list fin_maps.

Open Scope string_scope.
Open Scope list_scope.

(** ** Data model *)

(** Values found in [payload], [metadata] and in the [fields] of a log
    record ([Dict[str, Any]] restricted to scalars). *)
Inductive value : Type :=
  | VNone
  | VBool (b : bool)
  | VInt (z : Z)
  | VStr (s : string).

#[global] Instance value_eq_dec : EqDecision value.
Proof. solve_decision. Defined.

Definition opt_str (o : option string) : value :=
  match o with
  | Some s => VStr s
  | None => VNone
  end.

(** [app.domain.schemas.IngestRequest] *)
Record IngestRequest : Type := {
  req_event_type : string;
  req_source : string;
  req_actor : option string;
  req_payload : gmap string value;
  req_metadata : gmap string value
}.

(** [app.domain.schemas.SlackIngestRequest], with the four attributes
    [ingest_slack] reads. *)
Record SlackIngestRequest : Type := {
  user : option string;
  text : value;
  channel : value;
  ts : value
}.

(** [app.domain.schemas.Event], with the fields given at lines 98-106. *)
Record Event : Type := {
  event_id : string;
  event_type : string;
  source : string;
  timestamp : Z;
  actor : option string;
  payload : gmap string value;
  metadata : gmap string value
}.

#[global] Instance Event_eq_dec : EqDecision Event.
Proof. solve_decision. Defined.

(** The ordered risk classification of a [Decision]. *)
Inductive RiskLevel : Type := Low | Medium | High.

#[global] Instance RiskLevel_eq_dec : EqDecision RiskLevel.
Proof. solve_decision. Defined.

Definition risk_rank (r : RiskLevel) : nat :=
  match r with
  | Low => 0
  | Medium => 1
  | High => 2
  end.

Definition risk_name (r : RiskLevel) : string :=
  match r with
  | Low => "low"
  | Medium => "medium"
  | High => "high"
  end.

(** The object [route_event] returns; the attributes are the ones read at
    lines 59-63. *)
Record Decision : Type := {
  decision_id : string;
  d_event_id : string;
  route : string;
  risk_level : RiskLevel;
  reason : string
}.

#[global] Instance Decision_eq_dec : EqDecision Decision.
Proof. solve_decision. Defined.

(** The object [execute_decision] returns; the attributes are the ones read
    at lines 72-80. *)
Record ActionResult : Type := {
  action_id : string;
  a_event_id : string;
  a_decision_id : string;
  action_type : string;
  status : string;
  artifact_path : option string;
  a_reason : option string
}.

(** [IngestResponse(event=..., decision=...)] *)
Record IngestResponse : Type := {
  resp_event : Event;
  resp_decision : Decision
}.

(** Exceptions.  [HTTPException] is the one [_process_ingest] raises
    itself; [ActionError] stands for whatever [Exception] the actuator
    raises, with [msg] its [str(e)]. *)
Inductive exn : Type :=
  | HTTPException (status_code : Z) (detail : string)
  | ActionError (msg : string).

(** [str(e)].  For an [HTTPException] it is the status code, a colon and
    the detail. *)
Definition exn_str (e : exn) : string :=
  match e with
  | HTTPException status_code d => pretty status_code +:+ ": " +:+ d
  | ActionError m => m
  end.

(** ** Audit records *)

Inductive EventName : Type :=
  | ingest_rejected
  | ingest_created
  | ingest_duplicate
  | decision_created
  | action_executed
  | action_noop
  | action_failed.

#[global] Instance EventName_eq_dec : EqDecision EventName.
Proof. solve_decision. Defined.

(** One call of [log_event(logger, event_name=..., fields={...})]; the
    fields keep the order of the dict literal. *)
Record AuditRecord : Type := {
  event_name : EventName;
  fields : list (string * value)
}.

#[global] Instance AuditRecord_eq_dec : EqDecision AuditRecord.
Proof. solve_decision. Defined.

(** ** The world the pipeline runs in *)

Record World : Type := {
  store : gmap string Event;           (* the table behind get_event / set_event *)
  audit : list AuditRecord;            (* records written by log_event, oldest first *)
  drawn : nat;                         (* how many uuid4() calls were made *)
  ticks : nat;                         (* how many utcnow() calls were made *)
  attempted : list (Event * Decision)  (* effects the actuator attempted, oldest first *)
}.

Inductive outcome (A : Type) : Type :=
  | Raise (e : exn)
  | Return (a : A).
Arguments Raise {A} e.
Arguments Return {A} a.

(** A computation that may change the world and may raise.  A raise keeps
    the changes made before it, as in Python. *)
Definition M (A : Type) : Type := World -> outcome A * World.

Definition ret {A} (a : A) : M A := fun w => (Return a, w).

Definition raise {A} (e : exn) : M A := fun w => (Raise e, w).

Definition bind {A B} (c : M A) (k : A -> M B) : M B :=
  fun w =>
    match c w with
    | (Return a, w') => k a w'
    | (Raise e, w') => (Raise e, w')
    end.

(** [try: body  except Exception as e: handler(e)] *)
Definition try_except {A} (body : M A) (handler : exn -> M A) : M A :=
  fun w =>
    match body w with
    | (Return a, w') => (Return a, w')
    | (Raise e, w') => handler e w'
    end.

Notation "x <~ c ;; k" := (bind c (fun x => k))
  (at level 100, c at next level, right associativity).
Notation "c ;;; k" := (bind c (fun _ => k))
  (at level 100, right associativity).

(** ** World updates *)

Definition with_store (s : gmap string Event) (w : World) : World :=
  {| store := s; audit := audit w; drawn := drawn w; ticks := ticks w;
     attempted := attempted w |}.

Definition with_audit (l : list AuditRecord) (w : World) : World :=
  {| store := store w; audit := l; drawn := drawn w; ticks := ticks w;
     attempted := attempted w |}.

Definition with_drawn (n : nat) (w : World) : World :=
  {| store := store w; audit := audit w; drawn := n; ticks := ticks w;
     attempted := attempted w |}.

Definition with_ticks (n : nat) (w : World) : World :=
  {| store := store w; audit := audit w; drawn := drawn w; ticks := n;
     attempted := attempted w |}.

Definition with_attempted (l : list (Event * Decision)) (w : World) : World :=
  {| store := store w; audit := audit w; drawn := drawn w; ticks := ticks w;
     attempted := l |}.

(** ** What [app/main.py] imports

    [app.core.idempotency], [app.core.logging], [app.services.router] and
    [app.services.actuator] are called by [_process_ingest]; their bodies
    are not part of [app/main.py].  What they compute that the pipeline
    does not fix is gathered in [Collaborators]. *)

Record Collaborators : Type := {
  (* the n-th value of str(uuid.uuid4()) *)
  uuid4 : nat -> string;
  (* the n-th value of datetime.utcnow() *)
  utcnow : nat -> Z;
  (* routing policy: route, risk level and reason chosen for an Event *)
  route_of : Event -> string;
  risk_of : Event -> RiskLevel;
  reason_of : Event -> string;
  (* actuator configuration *)
  risk_threshold : RiskLevel;
  supported_route : string -> bool;
  action_type_of : string -> string;
  (* the underlying effect: given what was attempted before, it raises or
     yields the path of the artifact it produced, if any *)
  effect : Event -> Decision -> list (Event * Decision) -> outcome (option string)
}.

Section Pipeline.

Variable C : Collaborators.

Definition uuid4_call : M string :=
  fun w => (Return (uuid4 C (drawn w)), with_drawn (S (drawn w)) w).

Definition utcnow_call : M Z :=
  fun w => (Return (utcnow C (ticks w)), with_ticks (S (ticks w)) w).

(** Modelled from the spec: the body of [get_event] (module
    [app.core.idempotency]) is missing.  Spec 4.1: [get(key) -> Event |
    absent], a lookup without side effects. *)
Definition get_event (key : string) : M (option Event) :=
  fun w => (Return (store w !! key), w).

(** Modelled from the spec: the body of [set_event] (module
    [app.core.idempotency]) is missing.  Spec 4.1: [set(key, event) ->
    success | already-exists], first writer wins.  The result is [true]
    for success. *)
Definition set_event (key : string) (event : Event) : M bool :=
  fun w =>
    match store w !! key with
    | Some _ => (Return false, w)
    | None => (Return true, with_store (<[key := event]> (store w)) w)
    end.

(** Modelled from the spec: the body of [log_event] (module
    [app.core.logging]) is missing.  Spec 2 and 6: the audit log is
    append-only, one record [{event_name, fields}] per call. *)
Definition log_event (name : EventName) (fs : list (string * value)) : M unit :=
  fun w =>
    (Return tt, with_audit (audit w ++ [{| event_name := name; fields := fs |}]) w).

(** Modelled from the spec: the body of [route_event] (module
    [app.services.router]) is missing.  Spec 3 and 4.2: a pure function of
    the Event's content giving route, risk level and reason, never raising;
    [decision_id] is generated per decision and [event_id] refers to the
    Event. *)
Definition route_event (event : Event) : M Decision :=
  did <~ uuid4_call ;;
  ret {| decision_id := did;
         d_event_id := event_id event;
         route := route_of C event;
         risk_level := risk_of C event;
         reason := reason_of C event |}.

(** The risk gate of spec 4.3: a decision above the configured risk
    threshold, or with an unsupported route, is not actionable. *)
Definition above_threshold (decision : Decision) : bool :=
  bool_decide (risk_rank (risk_threshold C) < risk_rank (risk_level decision)).

Definition gated (decision : Decision) : bool :=
  above_threshold decision || negb (supported_route C (route decision)).

Definition gate_reason (decision : Decision) : string :=
  if above_threshold decision then "risk_level above threshold"
  else "route not supported".

(** Attempting the underlying effect: the attempt is recorded, then the
    effect raises or yields its artifact. *)
Definition attempt_effect (event : Event) (decision : Decision) : M (option string) :=
  fun w =>
    (effect C event decision (attempted w),
     with_attempted (attempted w ++ [(event, decision)]) w).

(** Modelled from the spec: the body of [execute_decision] (module
    [app.services.actuator]) is missing.  Spec 3 and 4.3: gated decisions
    resolve to [status = noop] with a populated reason and no attempt at
    the effect; actionable ones perform the effect and report [status =
    executed] with the artifact path; if the effect raises, the exception
    reaches the caller. *)
Definition execute_decision (event : Event) (decision : Decision) : M ActionResult :=
  if gated decision then
    aid <~ uuid4_call ;;
    ret {| action_id := aid;
           a_event_id := event_id event;
           a_decision_id := decision_id decision;
           action_type := action_type_of C (route decision);
           status := "noop";
           artifact_path := None;
           a_reason := Some (gate_reason decision) |}
  else
    artifact <~ attempt_effect event decision ;;
    aid <~ uuid4_call ;;
    ret {| action_id := aid;
           a_event_id := event_id event;
           a_decision_id := decision_id decision;
           action_type := action_type_of C (route decision);
           status := "executed";
           artifact_path := artifact;
           a_reason := None |}.

(** ** [_process_ingest] (lines 16-164) *)

Definition _process_ingest (ingest_req : IngestRequest)
    (idempotency_key : option string) : M IngestResponse :=
  match idempotency_key with
  | None | Some "" =>
      (* Gate 1: Idempotency-Key is required *)
      log_event ingest_rejected
        [("reason", VStr "missing_idempotency_key");
         ("event_type", VStr (req_event_type ingest_req));
         ("source", VStr (req_source ingest_req))] ;;;
      raise (HTTPException 400 "Missing Idempotency-Key header")
  | Some idempotency_key =>
      (* Gate 2: Idempotency reuse.  An Event object is truthy, so
         [if existing_event] tests for [None]. *)
      existing_event <~ get_event idempotency_key ;;
      match existing_event with
      | Some existing_event =>
          log_event ingest_duplicate
            [("idempotency_key", VStr idempotency_key);
             ("event_id", VStr (event_id existing_event));
             ("event_type", VStr (event_type existing_event));
             ("source", VStr (source existing_event))] ;;;
          (* Decide *)
          decision <~ route_event existing_event ;;
          log_event decision_created
            [("decision_id", VStr (decision_id decision));
             ("event_id", VStr (d_event_id decision));
             ("route", VStr (route decision));
             ("risk_level", VStr (risk_name (risk_level decision)));
             ("reason", VStr (reason decision))] ;;;
          (* Act (safe execution) *)
          try_except
            (action_result <~ execute_decision existing_event decision ;;
             log_event
               (if String.eqb (status action_result) "executed"
                then action_executed else action_noop)
               [("action_id", VStr (action_id action_result));
                ("event_id", VStr (a_event_id action_result));
                ("decision_id", VStr (a_decision_id action_result));
                ("action_type", VStr (action_type action_result));
                ("status", VStr (status action_result));
                ("artifact_path", opt_str (artifact_path action_result));
                ("reason", opt_str (a_reason action_result))])
            (fun e =>
               log_event action_failed
                 [("event_id", VStr (event_id existing_event));
                  ("decision_id", VStr (decision_id decision));
                  ("route", VStr (route decision));
                  ("error", VStr (exn_str e))]) ;;;
          ret {| resp_event := existing_event; resp_decision := decision |}
      | None =>
          (* Create new Event *)
          eid <~ uuid4_call ;;
          now <~ utcnow_call ;;
          let event :=
            {| event_id := eid;
               event_type := req_event_type ingest_req;
               source := req_source ingest_req;
               timestamp := now;
               actor := req_actor ingest_req;
               payload := req_payload ingest_req;
               metadata := req_metadata ingest_req |} in
          log_event ingest_created
            [("idempotency_key", VStr idempotency_key);
             ("event_id", VStr (event_id event));
             ("event_type", VStr (event_type event));
             ("source", VStr (source event))] ;;;
          (* Persist Event for idempotency *)
          set_event idempotency_key event ;;;
          (* Decide *)
          decision <~ route_event event ;;
          log_event decision_created
            [("decision_id", VStr (decision_id decision));
             ("event_id", VStr (d_event_id decision));
             ("route", VStr (route decision));
             ("risk_level", VStr (risk_name (risk_level decision)));
             ("reason", VStr (reason decision))] ;;;
          (* Act (safe execution) *)
          try_except
            (action_result <~ execute_decision event decision ;;
             log_event
               (if String.eqb (status action_result) "executed"
                then action_executed else action_noop)
               [("action_id", VStr (action_id action_result));
                ("event_id", VStr (a_event_id action_result));
                ("decision_id", VStr (a_decision_id action_result));
                ("action_type", VStr (action_type action_result));
                ("status", VStr (status action_result));
                ("artifact_path", opt_str (artifact_path action_result));
                ("reason", opt_str (a_reason action_result))])
            (fun e =>
               log_event action_failed
                 [("event_id", VStr (event_id event));
                  ("decision_id", VStr (decision_id decision));
                  ("route", VStr (route decision));
                  ("error", VStr (exn_str e))]) ;;;
          ret {| resp_event := event; resp_decision := decision |}
      end
  end.

(** ** The two endpoints (lines 172-199) *)

Definition ingest_api (req : IngestRequest) (idempotency_key : option string)
    : M IngestResponse :=
  _process_ingest req idempotency_key.

Definition ingest_slack (slack : SlackIngestRequest)
    (idempotency_key : option string) : M IngestResponse :=
  let ingest_req :=
    {| req_event_type := "support_request";
       req_source := "slack";
       req_actor := user slack;
       req_payload := {[ "text" := text slack ]};
       req_metadata := <[ "channel" := channel slack ]> {[ "ts" := ts slack ]} |} in
  _process_ingest ingest_req idempotency_key.

End Pipeline.

(** ** The Slack translation, as the specification words it

    The canonical request with [event_type = "support_request"], [source =
    "slack"], [actor = s.user], [payload = {text: s.text}] and [metadata =
    {channel: s.channel, ts: s.ts}]. *)
Definition slack_to_canonical (s : SlackIngestRequest) : IngestRequest :=
  {| req_event_type := "support_request";
     req_source := "slack";
     req_actor := user s;
     req_payload := {[ "text" := text s ]};
     req_metadata := {[ "channel" := channel s; "ts" := ts s ]} |}.

(** ** Sequences of requests *)

Inductive Call : Type :=
  | ApiCall (req : IngestRequest) (idempotency_key : option string)
  | SlackCall (slack : SlackIngestRequest) (idempotency_key : option string).

Definition call_key (c : Call) : option string :=
  match c with
  | ApiCall _ k => k
  | SlackCall _ k => k
  end.

(** The canonical request a call hands to the pipeline. *)
Definition call_request (c : Call) : IngestRequest :=
  match c with
  | ApiCall req _ => req
  | SlackCall slack _ => slack_to_canonical slack
  end.

Definition run_call (C : Collaborators) (c : Call) : M IngestResponse :=
  match c with
  | ApiCall req k => ingest_api C req k
  | SlackCall slack k => ingest_slack C slack k
  end.

(** The requests are served one after the other; a request that ends in an
    exception leaves the world as it was when the exception was raised. *)
Fixpoint run_calls (C : Collaborators) (cs : list Call) (w : World) : World :=
  match cs with
  | [] => w
  | c :: cs' => run_calls C cs' (snd (run_call C c w))
  end.

(** ** What a run added to the audit log *)

Definition emitted (before after : World) : list AuditRecord :=
  drop (length (audit before)) (audit after).

Definition names (l : list AuditRecord) : list EventName := map event_name l.

Definition count_name (n : EventName) (l : list AuditRecord) : nat :=
  length (filter (fun r => event_name r = n) l).

Definition is_action_name (n : EventName) : bool :=
  match n with
  | action_executed | action_noop | action_failed => true
  | _ => false
  end.

(** ** The pipeline cut into its stages

    [_process_ingest] is straight-line code between its calls to the
    store.  [step] cuts it at those calls and at the stage boundaries of
    the orchestrator: after [get_event] (line 40), after the Event is
    created and logged (line 117), after [set_event] (line 120), after the
    decision is logged (lines 65, 134) and at the [return]. *)

Inductive Stage : Type :=
  | Received (ingest_req : IngestRequest) (idempotency_key : option string)
  | Looked (ingest_req : IngestRequest) (idempotency_key : string)
      (existing_event : option Event)
  | Created (idempotency_key : string) (event : Event)
  | Accepted (event : Event)
  | Routed (event : Event) (decision : Decision)
  | Finished (res : outcome IngestResponse).

Section Stages.

Variable C : Collaborators.

Definition step (s : Stage) : M Stage :=
  match s with
  | Received ingest_req None | Received ingest_req (Some "") =>
      log_event ingest_rejected
        [("reason", VStr "missing_idempotency_key");
         ("event_type", VStr (req_event_type ingest_req));
         ("source", VStr (req_source ingest_req))] ;;;
      ret (Finished (Raise (HTTPException 400 "Missing Idempotency-Key header")))
  | Received ingest_req (Some idempotency_key) =>
      existing_event <~ get_event idempotency_key ;;
      ret (Looked ingest_req idempotency_key existing_event)
  | Looked _ idempotency_key (Some existing_event) =>
      log_event ingest_duplicate
        [("idempotency_key", VStr idempotency_key);
         ("event_id", VStr (event_id existing_event));
         ("event_type", VStr (event_type existing_event));
         ("source", VStr (source existing_event))] ;;;
      ret (Accepted existing_event)
  | Looked ingest_req idempotency_key None =>
      eid <~ uuid4_call C ;;
      now <~ utcnow_call C ;;
      let event :=
        {| event_id := eid;
           event_type := req_event_type ingest_req;
           source := req_source ingest_req;
           timestamp := now;
           actor := req_actor ingest_req;
           payload := req_payload ingest_req;
           metadata := req_metadata ingest_req |} in
      log_event ingest_created
        [("idempotency_key", VStr idempotency_key);
         ("event_id", VStr (event_id event));
         ("event_type", VStr (event_type event));
         ("source", VStr (source event))] ;;;
      ret (Created idempotency_key event)
  | Created idempotency_key event =>
      set_event idempotency_key event ;;;
      ret (Accepted event)
  | Accepted event =>
      decision <~ route_event C event ;;
      log_event decision_created
        [("decision_id", VStr (decision_id decision));
         ("event_id", VStr (d_event_id decision));
         ("route", VStr (route decision));
         ("risk_level", VStr (risk_name (risk_level decision)));
         ("reason", VStr (reason decision))] ;;;
      ret (Routed event decision)
  | Routed event decision =>
      try_except
        (action_result <~ execute_decision C event decision ;;
         log_event
           (if String.eqb (status action_result) "executed"
            then action_executed else action_noop)
           [("action_id", VStr (action_id action_result));
            ("event_id", VStr (a_event_id action_result));
            ("decision_id", VStr (a_decision_id action_result));
            ("action_type", VStr (action_type action_result));
            ("status", VStr (status action_result));
            ("artifact_path", opt_str (artifact_path action_result));
            ("reason", opt_str (a_reason action_result))])
        (fun e =>
           log_event action_failed
             [("event_id", VStr (event_id event));
              ("decision_id", VStr (decision_id decision));
              ("route", VStr (route decision));
              ("error", VStr (exn_str e))]) ;;;
      ret (Finished (Return {| resp_event := event; resp_decision := decision |}))
  | Finished res => ret (Finished res)
  end.

(** [n] stages of one request, run without interruption. *)
Fixpoint run_stages (n : nat) (s : Stage) (w : World) : Stage * World :=
  match n with
  | O => (s, w)
  | S n' =>
      match step s w with
      | (Return s', w') => run_stages n' s' w'
      | (Raise e, w') => (Finished (Raise e), w')
      end
  end.

(** Two requests served by two workers over the same world.  The schedule
    says which worker takes the next step: [true] the first, [false] the
    second. *)
Fixpoint interleave (schedule : list bool) (a b : Stage) (w : World)
    : Stage * Stage * World :=
  match schedule with
  | [] => (a, b, w)
  | true :: rest =>
      let '(a', w') := run_stages 1 a w in interleave rest a' b w'
  | false :: rest =>
      let '(b', w') := run_stages 1 b w in interleave rest a b' w'
  end.

End Stages.

(** The Event a request holds at a stage, if any. *)
Definition observed (s : Stage) : option Event :=
  match s with
  | Received _ _ => None
  | Looked _ _ existing_event => existing_event
  | Created _ event => Some event
  | Accepted event => Some event
  | Routed event _ => Some event
  | Finished (Return resp) => Some (resp_event resp)
  | Finished (Raise _) => None
  end.

(** ** What a run computes, named

    The Event built at lines 98-106 when [n] uuids were drawn and the clock
    was read [t] times before, the Decision the router returns when [n]
    uuids were drawn before, and the records written by the [log_event]
    calls of the pipeline. *)

Definition new_event (C : Collaborators) (ingest_req : IngestRequest)
    (n t : nat) : Event :=
  {| event_id := uuid4 C n;
     event_type := req_event_type ingest_req;
     source := req_source ingest_req;
     timestamp := utcnow C t;
     actor := req_actor ingest_req;
     payload := req_payload ingest_req;
     metadata := req_metadata ingest_req |}.

Definition decision_of (C : Collaborators) (event : Event) (n : nat) : Decision :=
  {| decision_id := uuid4 C n;
     d_event_id := event_id event;
     route := route_of C event;
     risk_level := risk_of C event;
     reason := reason_of C event |}.

Definition rejection_record (ingest_req : IngestRequest) : AuditRecord :=
  {| event_name := ingest_rejected;
     fields := [("reason", VStr "missing_idempotency_key");
                ("event_type", VStr (req_event_type ingest_req));
                ("source", VStr (req_source ingest_req))] |}.

Definition admission_record (name : EventName) (idempotency_key : string)
    (event : Event) : AuditRecord :=
  {| event_name := name;
     fields := [("idempotency_key", VStr idempotency_key);
                ("event_id", VStr (event_id event));
                ("event_type", VStr (event_type event));
                ("source", VStr (source event))] |}.

Definition decision_record (decision : Decision) : AuditRecord :=
  {| event_name := decision_created;
     fields := [("decision_id", VStr (decision_id decision));
                ("event_id", VStr (d_event_id decision));
                ("route", VStr (route decision));
                ("risk_level", VStr (risk_name (risk_level decision)));
                ("reason", VStr (reason decision))] |}.

Definition failure_record (event : Event) (decision : Decision) (e : exn)
    : AuditRecord :=
  {| event_name := action_failed;
     fields := [("event_id", VStr (event_id event));
                ("decision_id", VStr (decision_id decision));
                ("route", VStr (route decision));
                ("error", VStr (exn_str e))] |}.

(** An idempotency key that passes gate 1 ([if not idempotency_key] is
    false): present and not the empty string. *)
Definition key_supplied (idempotency_key : option string) : bool :=
  match idempotency_key with
  | None | Some "" => false
  | Some _ => true
  end.

(** ** A concrete deployment, for running the model *)

Module Demo.

Definition tag (prefix : string) (n : nat) : string := prefix +:+ pretty n.

Definition collaborators : Collaborators :=
  {| uuid4 := tag "uuid-";
     utcnow := fun n => (1700000000 + Z.of_nat n)%Z;
     route_of := fun e =>
       if String.eqb (event_type e) "support_request" then "support" else "default";
     risk_of := fun e =>
       match payload e !! "priority" with
       | Some (VStr "urgent") => High
       | Some _ => Medium
       | None => Low
       end;
     reason_of := fun e => "matched on event_type";
     risk_threshold := Medium;
     supported_route := fun r => String.eqb r "support";
     action_type_of := fun r => "write_ticket";
     effect := fun e d before =>
       match payload e !! "text" with
       | Some (VStr "") => Raise (ActionError "empty ticket")
       | _ => Return (Some ("artifacts/" +:+ event_id e))
       end |}.

Definition world0 : World :=
  {| store := ∅; audit := []; drawn := 0; ticks := 0; attempted := [] |}.

Definition help_request : IngestRequest :=
  {| req_event_type := "support_request";
     req_source := "api";
     req_actor := None;
     req_payload := {[ "text" := VStr "help" ]};
     req_metadata := ∅ |}.

Definition other_request : IngestRequest :=
  {| req_event_type := "billing";
     req_source := "api";
     req_actor := Some "bob";
     req_payload := {[ "text" := VStr "refund" ]};
     req_metadata := ∅ |}.

Definition empty_ticket : IngestRequest :=
  {| req_event_type := "support_request";
     req_source := "api";
     req_actor := None;
     req_payload := {[ "text" := VStr "" ]};
     req_metadata := ∅ |}.

Definition slack_message : SlackIngestRequest :=
  {| user := Some "U123";
     text := VStr "printer on fire";
     channel := VStr "C42";
     ts := VStr "1700000000.000100" |}.

End Demo.

(** ** Invariant of two admissions that do not race

    [holds e s]: the request at stage [s] is past its lookup and the Event
    it works on is [e]. *)
Definition holds (e : Event) (s : Stage) : Prop :=
  match s with
  | Received _ _ => False
  | Looked _ _ existing_event => existing_event = Some e
  | Created _ _ => False
  | Accepted event => event = e
  | Routed event _ => event = e
  | Finished (Return resp) => resp_event resp = e
  | Finished (Raise _) => False
  end.

(** ** Bookkeeping over a list of calls *)

(** Whether a run with this key finds nothing in the store and creates an
    Event (lines 97-120 are reached). *)
Definition creates (idempotency_key : option string) (w : World) : bool :=
  match idempotency_key with
  | None | Some "" => false
  | Some k => bool_decide (store w !! k = None)
  end.

(** The key a run can add to the store: its own, when it passes gate 1. *)
Definition supplied_key (idempotency_key : option string) : gset string :=
  match idempotency_key with
  | None | Some "" => ∅
  | Some k => {[ k ]}
  end.

Fixpoint supplied_keys (cs : list Call) : gset string :=
  match cs with
  | [] => ∅
  | c :: cs' => supplied_key (call_key c) ∪ supplied_keys cs'
  end.

(** How many [log_event] calls a run makes: one on the rejection path,
    three on the two other paths. *)
Definition records_of (idempotency_key : option string) : nat :=
  if key_supplied idempotency_key then 3 else 1.

Fixpoint records_of_calls (cs : list Call) : nat :=
  match cs with
  | [] => 0
  | c :: cs' => records_of (call_key c) + records_of_calls cs'
  end.

(** The record written at lines 70-82 for an ActionResult. *)
Definition action_record (action_result : ActionResult) : AuditRecord :=
  {| event_name :=
       if String.eqb (status action_result) "executed"
       then action_executed else action_noop;
     fields := [("action_id", VStr (action_id action_result));
                ("event_id", VStr (a_event_id action_result));
                ("decision_id", VStr (a_decision_id action_result));
                ("action_type", VStr (action_type action_result));
                ("status", VStr (status action_result));
                ("artifact_path", opt_str (artifact_path action_result));
                ("reason", opt_str (a_reason action_result))] |}.

(** The record written after the actuator call: the one of lines 70-82
    when it returned, the one of lines 84-93 when it raised. *)
Definition outcome_record (event : Event) (decision : Decision)
    (o : outcome ActionResult) : AuditRecord :=
  match o with
  | Return action_result => action_record action_result
  | Raise e => failure_record event decision e
  end.

(** The run of request [r] with key [k] from world [w], which returned
    [resp] and ended in [w'], went through the router and the actuator:
    it stood at the stage before routing with the Event of the response,
    [route_event] called there returned the Decision of the response; it
    stood at the stage before actuation with that Event and Decision,
    [execute_decision] was called there, and the run ended in the world
    that call left, with the record of its outcome appended. *)
Definition routed_and_acted (C : Collaborators) (r : IngestRequest) (k : string)
    (w : World) (resp : IngestResponse) (w' : World) : Prop :=
  exists m n w_adm w_dec w_act o w_eff,
    run_stages C m (Received r (Some k)) w = (Accepted (resp_event resp), w_adm)
    /\ route_event C (resp_event resp) w_adm = (Return (resp_decision resp), w_dec)
    /\ run_stages C n (Received r (Some k)) w
       = (Routed (resp_event resp) (resp_decision resp), w_act)
    /\ execute_decision C (resp_event resp) (resp_decision resp) w_act = (o, w_eff)
    /\ w' = with_audit
              (audit w_eff
               ++ [outcome_record (resp_event resp) (resp_decision resp) o])
              w_eff.

(** What a call of the actuator adds to the effects attempted: nothing for
    a gated decision, the pair it was called on otherwise. *)
Definition attempt_of (C : Collaborators) (event : Event) (decision : Decision)
    : list (Event * Decision) :=
  if gated C decision then [] else [(event, decision)].

(** Two deployments with the same uuid source, clock and routing policy;
    their actuators may differ in every way. *)
Definition same_routing (C1 C2 : Collaborators) : Prop :=
  (forall n, uuid4 C1 n = uuid4 C2 n)
  /\ (forall n, utcnow C1 n = utcnow C2 n)
  /\ (forall e, route_of C1 e = route_of C2 e)
  /\ (forall e, risk_of C1 e = risk_of C2 e)
  /\ (forall e, reason_of C1 e = reason_of C2 e).

(** A second deployment: the routing of [Demo], an actuator that lets
    nothing through its risk gate. *)
Module Strict.

Definition collaborators : Collaborators :=
  {| uuid4 := uuid4 Demo.collaborators;
     utcnow := utcnow Demo.collaborators;
     route_of := route_of Demo.collaborators;
     risk_of := risk_of Demo.collaborators;
     reason_of := reason_of Demo.collaborators;
     risk_threshold := Low;
     supported_route := fun _ => false;
     action_type_of := fun _ => "none";
     effect := fun _ _ _ => Raise (ActionError "disabled") |}.

End Strict.

(** * Properties *)

(** Unfolds the monad and the primitives so that a run computes. *)
Ltac unfold_run :=
  unfold bind, ret, raise, try_except, get_event, set_event, log_event,
    route_event, uuid4_call, utcnow_call in *.

Ltac compute_run := repeat (progress (unfold_run; cbn in * )).

Ltac compute_in H :=
  repeat (progress
    (unfold bind, ret, raise, try_except, get_event, set_event, log_event,
       route_event, uuid4_call, utcnow_call in H; cbn in H)).

Lemma emitted_app (w w' : World) (l : list AuditRecord) :
  audit w' = audit w ++ l -> emitted w w' = l.
Proof. intros H. unfold emitted. rewrite H. apply drop_app_length. Qed.

(** ** Concrete runs

    The scenarios of the specification's section 8 on the concrete
    deployment. *)

Example first_submission :
  let '(res, w) := _process_ingest Demo.collaborators Demo.help_request
                     (Some "abc-1") Demo.world0 in
  (source <$> (match res with Return resp => Some (resp_event resp) | Raise _ => None end),
   names (audit w), dom (store w))
  = (Some "api", [ingest_created; decision_created; action_executed],
     ({[ "abc-1" ]} : gset string)).
Proof. vm_compute. reflexivity. Qed.

Example resubmission :
  let '(res1, w1) := _process_ingest Demo.collaborators Demo.help_request
                       (Some "abc-1") Demo.world0 in
  let '(res2, w2) := _process_ingest Demo.collaborators Demo.help_request
                       (Some "abc-1") w1 in
  match res1, res2 with
  | Return resp1, Return resp2 =>
      event_id (resp_event resp1) = event_id (resp_event resp2)
      /\ names (emitted w1 w2) = [ingest_duplicate; decision_created; action_executed]
  | _, _ => False
  end.
Proof. vm_compute. split; reflexivity. Qed.

Example omitted_key :
  _process_ingest Demo.collaborators Demo.other_request None Demo.world0
  = (Raise (HTTPException 400 "Missing Idempotency-Key header"),
     with_audit [rejection_record Demo.other_request] Demo.world0).
Proof. reflexivity. Qed.

Example gated_request :
  names (audit (snd (_process_ingest Demo.collaborators Demo.other_request
                       (Some "abc-2") Demo.world0)))
  = [ingest_created; decision_created; action_noop].
Proof. vm_compute. reflexivity. Qed.

(** ** The store primitives *)

(** On a key that is not in the store, [set_event] is a plain insertion;
    these are the only calls the pipeline makes when requests are served
    one after the other. *)
Lemma set_event_absent (key : string) (event : Event) (w : World) :
  store w !! key = None ->
  set_event key event w = (Return true, with_store (<[key := event]> (store w)) w).
Proof. intros H. unfold set_event. rewrite H. reflexivity. Qed.

Lemma get_event_pure (key : string) (w : World) :
  get_event key w = (Return (store w !! key), w).
Proof. reflexivity. Qed.

Section Facts.

Variable C : Collaborators.

(** ** The actuator leaves store and log alone *)

Lemma execute_frame (e : Event) (d : Decision) (w w' : World)
    (o : outcome ActionResult) :
  execute_decision C e d w = (o, w') ->
  store w' = store w /\ audit w' = audit w /\ drawn w <= drawn w'.
Proof.
  unfold execute_decision, attempt_effect.
  destruct (gated C d); compute_run.
  - intros [= <- <-]. cbn. auto.
  - destruct (effect C e d (attempted w)); intros [= <- <-]; cbn; auto.
Qed.

Lemma execute_status (e : Event) (d : Decision) (w w' : World) (a : ActionResult) :
  execute_decision C e d w = (Return a, w') ->
  status a = (if gated C d then "noop" else "executed").
Proof.
  unfold execute_decision, attempt_effect.
  destruct (gated C d); compute_run.
  - intros [= <- <-]. reflexivity.
  - destruct (effect C e d (attempted w)); intros [= <- <-]. reflexivity.
Qed.

(** ** One stage at a time *)

Lemma step_accepted (e : Event) (w : World) :
  step C (Accepted e) w =
  (Return (Routed e (decision_of C e (drawn w))),
   with_audit (audit w ++ [decision_record (decision_of C e (drawn w))])
     (with_drawn (S (drawn w)) w)).
Proof. reflexivity. Qed.

Lemma step_routed_raise (e : Event) (d : Decision) (w w_eff : World) (err : exn) :
  execute_decision C e d w = (Raise err, w_eff) ->
  step C (Routed e d) w =
  (Return (Finished (Return {| resp_event := e; resp_decision := d |})),
   with_audit (audit w_eff ++ [failure_record e d err]) w_eff).
Proof. intros H. cbn [step]. unfold_run. rewrite H. reflexivity. Qed.

Lemma step_routed (e : Event) (d : Decision) (w : World) :
  exists rec w',
    step C (Routed e d) w =
      (Return (Finished (Return {| resp_event := e; resp_decision := d |})), w')
    /\ store w' = store w
    /\ audit w' = audit w ++ [rec]
    /\ is_action_name (event_name rec) = true
    /\ drawn w <= drawn w'.
Proof.
  cbn [step]. unfold_run.
  destruct (execute_decision C e d w) as [[err|a] w1] eqn:He;
    destruct (execute_frame _ _ _ _ _ He) as (Hs & Ha & Hd).
  - eexists _, _. split; [reflexivity|]. cbn. rewrite Hs, Ha. auto.
  - eexists _, _. split; [reflexivity|]. cbn. rewrite Hs, Ha.
    split; [reflexivity|]. split; [reflexivity|]. split; [|exact Hd].
    cbn. destruct (status a =? "executed")%string; reflexivity.
Qed.

Lemma run_stages_add (n m : nat) (s : Stage) (w : World) :
  run_stages C (n + m) s w =
  run_stages C m (run_stages C n s w).1 (run_stages C n s w).2.
Proof.
  revert s w. induction n as [|n IH]; intros s w; [reflexivity|].
  cbn [Nat.add run_stages].
  destruct (step C s w) as [[e|s'] w'] eqn:Hs.
  - cbn. clear. induction m as [|m IHm]; [reflexivity|]. exact IHm.
  - apply IH.
Qed.

Lemma run_stages_finished (n : nat) (res : outcome IngestResponse) (w : World) :
  run_stages C n (Finished res) w = (Finished res, w).
Proof. induction n as [|n IH]; [reflexivity|]. exact IH. Qed.

(** ** The stages compose to [_process_ingest] *)

Lemma stages_agree (r : IngestRequest) (key : option string) (w : World) :
  run_stages C 5 (Received r key) w =
  (Finished (fst (_process_ingest C r key w)), snd (_process_ingest C r key w)).
Proof.
  destruct key as [[|a k]|]; [reflexivity| |reflexivity].
  compute_run.
  destruct (store w !! String a k) as [existing|] eqn:Hlook; compute_run.
  - destruct (execute_decision C existing _ _) as [[err|res] w']; reflexivity.
  - rewrite Hlook. compute_run.
    destruct (execute_decision C _ _ _) as [[err|res] w']; reflexivity.
Qed.

Lemma process_from_stages (r : IngestRequest) (key : option string)
    (w w' : World) (res : outcome IngestResponse) :
  run_stages C 5 (Received r key) w = (Finished res, w') ->
  _process_ingest C r key w = (res, w').
Proof.
  rewrite stages_agree. intros [= <- <-].
  destruct (_process_ingest C r key w); reflexivity.
Qed.

(** ** A whole run, by the three ways through gate 1 and gate 2 *)

Lemma key_supplied_inv (key : option string) :
  key_supplied key = true -> exists k, key = Some k /\ k <> "".
Proof. destruct key as [[|a k]|]; [discriminate| |discriminate]. eauto. Qed.

Lemma run_missing (r : IngestRequest) (key : option string) (w : World) :
  key_supplied key = false ->
  _process_ingest C r key w =
  (Raise (HTTPException 400 "Missing Idempotency-Key header"),
   with_audit (audit w ++ [rejection_record r]) w).
Proof. destruct key as [[|a k]|]; [reflexivity|discriminate|reflexivity]. Qed.

Lemma run_duplicate (r : IngestRequest) (k : string) (w : World) (e : Event) :
  k <> "" -> store w !! k = Some e ->
  exists rec w',
    _process_ingest C r (Some k) w =
      (Return {| resp_event := e; resp_decision := decision_of C e (drawn w) |}, w')
    /\ store w' = store w
    /\ audit w' = audit w ++ [admission_record ingest_duplicate k e;
                              decision_record (decision_of C e (drawn w)); rec]
    /\ is_action_name (event_name rec) = true
    /\ drawn w < drawn w'.
Proof.
  intros Hk Hlook.
  set (d := decision_of C e (drawn w)).
  set (w2 := with_audit (audit w ++ [admission_record ingest_duplicate k e]
                                 ++ [decision_record d]) (with_drawn (S (drawn w)) w)).
  destruct (step_routed e d w2) as (rec & w' & Hstep & Hs & Ha & Hn & Hd).
  exists rec, w'. split.
  - apply process_from_stages.
    destruct k as [|a k]; [congruence|].
    change 5 with (3 + 2). rewrite run_stages_add.
    assert (H3 : run_stages C 3 (Received r (Some (String a k))) w = (Routed e d, w2)).
    { compute_run. rewrite Hlook. compute_run. unfold w2. cbn.
      rewrite <- app_assoc. reflexivity. }
    rewrite H3. cbn [fst snd run_stages]. rewrite Hstep. reflexivity.
  - rewrite Hs, Ha. unfold w2 in *. cbn in *. rewrite <- !app_assoc.
    repeat split; [exact Hn|lia].
Qed.

Lemma run_new (r : IngestRequest) (k : string) (w : World) :
  k <> "" -> store w !! k = None ->
  let e := new_event C r (drawn w) (ticks w) in
  let d := decision_of C e (S (drawn w)) in
  exists rec w',
    _process_ingest C r (Some k) w =
      (Return {| resp_event := e; resp_decision := d |}, w')
    /\ store w' = <[k := e]> (store w)
    /\ audit w' = audit w ++ [admission_record ingest_created k e;
                              decision_record d; rec]
    /\ is_action_name (event_name rec) = true
    /\ S (drawn w) < drawn w'.
Proof.
  intros Hk Hlook e d.
  set (w2 := with_audit (audit w ++ [admission_record ingest_created k e]
                                 ++ [decision_record d])
               (with_drawn (S (S (drawn w)))
                  (with_store (<[k := e]> (store w))
                     (with_ticks (S (ticks w)) w)))).
  destruct (step_routed e d w2) as (rec & w' & Hstep & Hs & Ha & Hn & Hd).
  exists rec, w'. split.
  - apply process_from_stages.
    destruct k as [|a k]; [congruence|].
    change 5 with (4 + 1). rewrite run_stages_add.
    assert (H4 : run_stages C 4 (Received r (Some (String a k))) w = (Routed e d, w2)).
    { compute_run. rewrite Hlook. compute_run. rewrite Hlook. compute_run.
      unfold w2. cbn. rewrite <- app_assoc. reflexivity. }
    rewrite H4. cbn [fst snd run_stages]. rewrite Hstep. reflexivity.
  - rewrite Hs, Ha. unfold w2 in *. cbn in *. rewrite <- !app_assoc.
    repeat split; [exact Hn|lia].
Qed.

(** ** An entry of the store stays as it is *)

Lemma process_store_stable (r : IngestRequest) (key : option string)
    (w : World) (k : string) (e : Event) :
  store w !! k = Some e ->
  store (snd (_process_ingest C r key w)) !! k = Some e.
Proof.
  intros Hlook.
  destruct (key_supplied key) eqn:Hkey.
  - destruct (key_supplied_inv _ Hkey) as (k' & -> & Hk').
    destruct (store w !! k') as [e'|] eqn:Hlook'.
    + destruct (run_duplicate r k' w e' Hk' Hlook') as (rec & w' & -> & Hs & _).
      cbn. rewrite Hs. exact Hlook.
    + destruct (run_new r k' w Hk' Hlook') as (rec & w' & -> & Hs & _).
      cbn. rewrite Hs. rewrite lookup_insert_ne; [exact Hlook|].
      intros ->. congruence.
  - rewrite run_missing by exact Hkey. exact Hlook.
Qed.

Lemma run_call_process (c : Call) :
  run_call C c = _process_ingest C (call_request c) (call_key c).
Proof. destruct c; reflexivity. Qed.

Lemma run_call_store_stable (c : Call) (w : World) (k : string) (e : Event) :
  store w !! k = Some e -> store (snd (run_call C c w)) !! k = Some e.
Proof. destruct c; apply process_store_stable. Qed.

Lemma run_calls_store_stable (cs : list Call) (w : World) (k : string) (e : Event) :
  store w !! k = Some e -> store (run_calls C cs w) !! k = Some e.
Proof.
  revert w. induction cs as [|c cs IH]; intros w Hlook; [exact Hlook|].
  cbn [run_calls]. apply IH, run_call_store_stable, Hlook.
Qed.

(** ** Where a run stands when the actuator is called *)

Lemma run_stages_routed (m : nat) (e : Event) (d : Decision) (w : World) :
  run_stages C (S m) (Routed e d) w = run_stages C 1 (Routed e d) w.
Proof.
  destruct (step_routed e d w) as (rec & w' & Hstep & _).
  cbn [run_stages]. rewrite Hstep. apply run_stages_finished.
Qed.

Lemma routed_inv (r : IngestRequest) (key : option string) (w : World) (n : nat)
    (event : Event) (decision : Decision) (w_act : World) :
  run_stages C n (Received r key) w = (Routed event decision, w_act) ->
  exists first,
    audit w_act = audit w ++ [first; decision_record decision]
    /\ event_name first <> action_failed
    /\ run_stages C 5 (Received r key) w = run_stages C 1 (Routed event decision) w_act.
Proof.
  intros Hn.
  destruct (le_lt_dec 5 n) as [Hge|Hlt].
  { replace n with (5 + (n - 5)) in Hn by lia.
    rewrite run_stages_add, stages_agree in Hn. cbn [fst snd] in Hn.
    rewrite run_stages_finished in Hn. discriminate. }
  assert (Hrun : run_stages C 5 (Received r key) w
                 = run_stages C 1 (Routed event decision) w_act).
  { replace 5 with (n + S (4 - n)) by lia.
    rewrite run_stages_add, Hn. cbn [fst snd]. apply run_stages_routed. }
  enough (exists first, audit w_act = audit w ++ [first; decision_record decision]
                        /\ event_name first <> action_failed)
    as (first & Ha & Hf) by eauto.
  clear Hrun.
  destruct key as [[|a k]|].
  - destruct n as [|n]; [discriminate|].
    cbn [run_stages] in Hn. compute_in Hn. rewrite run_stages_finished in Hn. discriminate.
  - destruct n as [|[|[|[|[|n]]]]]; [| | | | |lia];
      destruct (store w !! String a k) as [e|] eqn:Hlook;
      compute_in Hn; try rewrite Hlook in Hn; compute_in Hn;
      try rewrite Hlook in Hn; compute_in Hn; try discriminate.
    + injection Hn as <- <- <-. eexists. cbn. rewrite <- app_assoc.
      split; [reflexivity|discriminate].
    + destruct (execute_decision C e _ _) as [[err|a0] w0]; discriminate.
    + injection Hn as <- <- <-. eexists. cbn. rewrite <- app_assoc.
      split; [reflexivity|discriminate].
  - destruct n as [|n]; [discriminate|].
    cbn [run_stages] in Hn. compute_in Hn. rewrite run_stages_finished in Hn. discriminate.
Qed.

End Facts.

(** ** Counting records *)

Lemma count_name_cons (n : EventName) (r : AuditRecord) (l : list AuditRecord) :
  count_name n (r :: l) =
  (if decide (event_name r = n) then 1 else 0) + count_name n l.
Proof.
  unfold count_name. rewrite filter_cons.
  destruct (decide (event_name r = n)); reflexivity.
Qed.

Lemma count_name_nil (n : EventName) : count_name n [] = 0.
Proof. reflexivity. Qed.

Lemma action_name_cases (n : EventName) :
  is_action_name n = true ->
  n = action_executed \/ n = action_noop \/ n = action_failed.
Proof. destruct n; try discriminate; auto. Qed.

(** ** Every keyed run goes through the router and the actuator *)

Lemma execute_attempted (C : Collaborators) (e : Event) (d : Decision)
    (w w' : World) (o : outcome ActionResult) :
  execute_decision C e d w = (o, w') ->
  attempted w' = attempted w ++ attempt_of C e d.
Proof.
  unfold execute_decision, attempt_effect, attempt_of.
  destruct (gated C d); compute_run.
  - intros [= <- <-]. cbn. rewrite app_nil_r. reflexivity.
  - destruct (effect C e d (attempted w)); intros [= <- <-]; reflexivity.
Qed.

Lemma step_routed_outcome (C : Collaborators) (e : Event) (d : Decision)
    (w w_eff : World) (o : outcome ActionResult) :
  execute_decision C e d w = (o, w_eff) ->
  step C (Routed e d) w =
  (Return (Finished (Return {| resp_event := e; resp_decision := d |})),
   with_audit (audit w_eff ++ [outcome_record e d o]) w_eff).
Proof. intros H. cbn [step]. unfold_run. rewrite H. destruct o; reflexivity. Qed.

Lemma run_routed_and_acted (C : Collaborators) (r : IngestRequest) (k : string)
    (w : World) (resp : IngestResponse) (w' : World) :
  k <> "" ->
  _process_ingest C r (Some k) w = (Return resp, w') ->
  routed_and_acted C r k w resp w'
  /\ attempted w' = attempted w ++ attempt_of C (resp_event resp) (resp_decision resp).
Proof.
  intros Hk Hrun. destruct k as [|a k]; [congruence|].
  destruct (store w !! String a k) as [e|] eqn:Hlook.
  - set (d := decision_of C e (drawn w)).
    set (w_adm := with_audit
                    (audit w ++ [admission_record ingest_duplicate (String a k) e]) w).
    set (w_act := with_audit (audit w_adm ++ [decision_record d])
                    (with_drawn (S (drawn w)) w_adm)).
    assert (H2 : run_stages C 2 (Received r (Some (String a k))) w = (Accepted e, w_adm)).
    { compute_run. rewrite Hlook. reflexivity. }
    assert (H3 : run_stages C 3 (Received r (Some (String a k))) w = (Routed e d, w_act)).
    { compute_run. rewrite Hlook. reflexivity. }
    destruct (execute_decision C e d w_act) as [o w_eff] eqn:He.
    assert (Hfull : _process_ingest C r (Some (String a k)) w =
                    (Return {| resp_event := e; resp_decision := d |},
                     with_audit (audit w_eff ++ [outcome_record e d o]) w_eff)).
    { apply process_from_stages. change 5 with (3 + 2).
      rewrite run_stages_add, H3. cbn [fst snd run_stages].
      rewrite (step_routed_outcome C _ _ _ _ _ He). reflexivity. }
    rewrite Hfull in Hrun. injection Hrun as <- <-. split.
    + exists 2, 3, w_adm, (with_drawn (S (drawn w)) w_adm), w_act, o, w_eff.
      cbn [resp_event resp_decision]. repeat split; assumption || reflexivity.
    + cbn. apply execute_attempted in He. exact He.
  - set (e := new_event C r (drawn w) (ticks w)).
    set (d := decision_of C e (S (drawn w))).
    set (w_adm := with_store (<[String a k := e]> (store w))
                    (with_audit
                       (audit w ++ [admission_record ingest_created (String a k) e])
                       (with_ticks (S (ticks w)) (with_drawn (S (drawn w)) w)))).
    set (w_act := with_audit (audit w_adm ++ [decision_record d])
                    (with_drawn (S (S (drawn w))) w_adm)).
    assert (H3 : run_stages C 3 (Received r (Some (String a k))) w = (Accepted e, w_adm)).
    { compute_run. rewrite Hlook. compute_run. rewrite Hlook. reflexivity. }
    assert (H4 : run_stages C 4 (Received r (Some (String a k))) w = (Routed e d, w_act)).
    { compute_run. rewrite Hlook. compute_run. rewrite Hlook. reflexivity. }
    destruct (execute_decision C e d w_act) as [o w_eff] eqn:He.
    assert (Hfull : _process_ingest C r (Some (String a k)) w =
                    (Return {| resp_event := e; resp_decision := d |},
                     with_audit (audit w_eff ++ [outcome_record e d o]) w_eff)).
    { apply process_from_stages. change 5 with (4 + 1).
      rewrite run_stages_add, H4. cbn [fst snd run_stages].
      rewrite (step_routed_outcome C _ _ _ _ _ He). reflexivity. }
    rewrite Hfull in Hrun. injection Hrun as <- <-. split.
    + exists 3, 4, w_adm, (with_drawn (S (S (drawn w))) w_adm), w_act, o, w_eff.
      cbn [resp_event resp_decision]. repeat split; assumption || reflexivity.
    + cbn. apply execute_attempted in He. exact He.
Qed.

(** * The claims *)

Section Claims.

Variable C : Collaborators.

(** C1. Idempotency: for a supplied key [k] and any two requests [r1], [r2],
    processing [r1] and later [r2] with [k] (whatever requests are served
    in between) returns the same Event both times.  The first admission
    stores the Event it returns; when [k] was not in the store, that Event
    is the one created from [r1]; the later run returns the stored Event
    and leaves it in the store, whatever [r2] contains. *)
Theorem idempotent_admission (r1 r2 : IngestRequest) (k : string) (w : World)
    (between : list Call) :
  k <> "" ->
  exists resp1 w1 resp2 w2,
    _process_ingest C r1 (Some k) w = (Return resp1, w1)
    /\ _process_ingest C r2 (Some k) (run_calls C between w1) = (Return resp2, w2)
    /\ resp_event resp2 = resp_event resp1
    /\ store w1 !! k = Some (resp_event resp1)
    /\ store w2 !! k = Some (resp_event resp1)
    /\ (store w !! k = None ->
        resp_event resp1 = new_event C r1 (drawn w) (ticks w)).
Proof.
  intros Hk.
  assert (H1 : exists resp1 w1,
             _process_ingest C r1 (Some k) w = (Return resp1, w1)
             /\ store w1 !! k = Some (resp_event resp1)
             /\ (store w !! k = None ->
                 resp_event resp1 = new_event C r1 (drawn w) (ticks w))).
  { destruct (store w !! k) as [e|] eqn:Hlook.
    - destruct (run_duplicate C r1 k w e Hk Hlook) as (rec & w1 & Hrun & Hs & _).
      eexists _, w1. split; [exact Hrun|]. cbn. rewrite Hs. split; [exact Hlook|].
      discriminate.
    - destruct (run_new C r1 k w Hk Hlook) as (rec & w1 & Hrun & Hs & _).
      eexists _, w1. split; [exact Hrun|]. cbn. rewrite Hs.
      split; [apply lookup_insert_eq|reflexivity]. }
  destruct H1 as (resp1 & w1 & Hrun1 & Hs1 & Hnew).
  pose proof (run_calls_store_stable C between w1 k _ Hs1) as Hlater.
  destruct (run_duplicate C r2 k _ _ Hk Hlater) as (rec & w2 & Hrun2 & Hs2 & _).
  eexists resp1, w1, _, w2. split; [exact Hrun1|]. split; [exact Hrun2|].
  cbn. rewrite Hs2. auto.
Qed.

(** C2, as amended.  A request whose idempotency key is absent or empty is
    rejected with the client error [HTTPException(400, "Missing
    Idempotency-Key header")].  The fixed reason code
    [missing_idempotency_key] is carried by the [ingest_rejected] audit
    record, which is the only record the run emits.  No Event is created
    (no uuid drawn, clock not read, actuator not called) and the store is
    left as it was. *)
Theorem missing_key_rejected (r : IngestRequest) (key : option string) (w : World) :
  key = None \/ key = Some "" ->
  exists w',
    _process_ingest C r key w =
      (Raise (HTTPException 400 "Missing Idempotency-Key header"), w')
    /\ emitted w w' = [rejection_record r]
    /\ event_name (rejection_record r) = ingest_rejected
    /\ ("reason", VStr "missing_idempotency_key") ∈ fields (rejection_record r)
    /\ store w' = store w
    /\ drawn w' = drawn w /\ ticks w' = ticks w /\ attempted w' = attempted w.
Proof.
  intros Hkey. eexists. split.
  - apply run_missing. destruct Hkey as [-> | ->]; reflexivity.
  - split; [apply emitted_app; reflexivity|]. cbn.
    repeat split; try reflexivity. apply list_elem_of_here.
Qed.

(** C3. Actuation absorption: when a run has reached the point where the
    actuator is called on [(event, decision)] and [execute_decision] raises
    there, [_process_ingest] still returns [(event, decision)] and raises
    nothing; the run emits exactly one [action_failed] record, its last,
    and the store is the one the actuator was called in. *)
Theorem actuation_failure_absorbed (r : IngestRequest) (key : option string)
    (w : World) (n : nat) (event : Event) (decision : Decision)
    (w_act w_eff : World) (err : exn) :
  run_stages C n (Received r key) w = (Routed event decision, w_act) ->
  execute_decision C event decision w_act = (Raise err, w_eff) ->
  exists w',
    _process_ingest C r key w =
      (Return {| resp_event := event; resp_decision := decision |}, w')
    /\ count_name action_failed (emitted w w') = 1
    /\ last (emitted w w') = Some (failure_record event decision err)
    /\ store w' = store w_act.
Proof.
  intros Hn He.
  destruct (routed_inv C _ _ _ _ _ _ _ Hn) as (first & Ha & Hfirst & Hrun).
  destruct (execute_frame C _ _ _ _ _ He) as (Hs & Haud & _).
  set (w' := with_audit (audit w_eff ++ [failure_record event decision err]) w_eff).
  assert (Hem : emitted w w' =
                [first; decision_record decision; failure_record event decision err]).
  { apply emitted_app. cbn. rewrite Haud, Ha, <- app_assoc. reflexivity. }
  exists w'. split.
  - apply process_from_stages. rewrite Hrun. cbn [run_stages].
    rewrite (step_routed_raise C _ _ _ _ _ He). reflexivity.
  - rewrite Hem. split; [|split; [reflexivity|exact Hs]].
    rewrite !count_name_cons, count_name_nil. cbn.
    destruct (decide (event_name first = action_failed)); [contradiction|].
    reflexivity.
Qed.

(** C4. Duplicate re-routing: when the same supplied key is submitted twice,
    routing and actuation run in both runs.  Each run calls [route_event]
    on the Event it returns and gets the Decision it returns, then calls
    [execute_decision] on that Event and Decision and ends in the world
    that call left, with the record of its outcome appended; the effects
    attempted after the two runs are those attempted before, then what
    the first call of the actuator attempted, then what the second
    attempted.  The two runs emit two [decision_created] records, their
    Decisions come from two separate draws of [decision_id], and they
    emit two action records, of which at most two report an ActionResult
    ([action_executed] or [action_noop]).  Only one Event exists for the
    key: both runs return it, the store holds it, and at most one
    [ingest_created] record is emitted. *)
Theorem duplicate_rerouted (r1 r2 : IngestRequest) (k : string) (w : World) :
  k <> "" ->
  exists resp1 w1 resp2 w2,
    _process_ingest C r1 (Some k) w = (Return resp1, w1)
    /\ _process_ingest C r2 (Some k) w1 = (Return resp2, w2)
    /\ routed_and_acted C r1 k w resp1 w1
    /\ routed_and_acted C r2 k w1 resp2 w2
    /\ attempted w2
       = attempted w
         ++ attempt_of C (resp_event resp1) (resp_decision resp1)
         ++ attempt_of C (resp_event resp2) (resp_decision resp2)
    /\ count_name decision_created (emitted w w2) = 2
    /\ (exists n1 n2, n1 < n2
          /\ resp_decision resp1 = decision_of C (resp_event resp1) n1
          /\ resp_decision resp2 = decision_of C (resp_event resp2) n2)
    /\ length (filter (fun rec => is_action_name (event_name rec) = true)
                 (emitted w w2)) = 2
    /\ count_name action_executed (emitted w w2)
       + count_name action_noop (emitted w w2) <= 2
    /\ resp_event resp2 = resp_event resp1
    /\ count_name ingest_created (emitted w w2) <= 1
    /\ store w2 !! k = Some (resp_event resp1).
Proof.
  intros Hk.
  assert (H1 : exists e first n1 rec1 w1,
             _process_ingest C r1 (Some k) w =
               (Return {| resp_event := e; resp_decision := decision_of C e n1 |}, w1)
             /\ store w1 !! k = Some e
             /\ audit w1 = audit w ++ [admission_record first k e;
                                       decision_record (decision_of C e n1); rec1]
             /\ (first = ingest_duplicate \/ first = ingest_created)
             /\ is_action_name (event_name rec1) = true
             /\ n1 < drawn w1).
  { destruct (store w !! k) as [e|] eqn:Hlook.
    - destruct (run_duplicate C r1 k w e Hk Hlook) as (rec & w1 & Hrun & Hs & Ha & Hn & Hd).
      exists e, ingest_duplicate, (drawn w), rec, w1.
      rewrite Hs. auto 10.
    - destruct (run_new C r1 k w Hk Hlook) as (rec & w1 & Hrun & Hs & Ha & Hn & Hd).
      eexists _, ingest_created, _, rec, w1.
      split; [exact Hrun|]. rewrite Hs, lookup_insert_eq.
      split; [reflexivity|]. split; [exact Ha|]. split; [auto|].
      split; [exact Hn|lia]. }
  destruct H1 as (e & first & n1 & rec1 & w1 & Hrun1 & Hs1 & Ha1 & Hfirst & Hn1 & Hd1).
  destruct (run_duplicate C r2 k w1 e Hk Hs1) as (rec2 & w2 & Hrun2 & Hs2 & Ha2 & Hn2 & Hd2).
  destruct (run_routed_and_acted C r1 k w _ w1 Hk Hrun1) as (Hra1 & Hat1).
  destruct (run_routed_and_acted C r2 k w1 _ w2 Hk Hrun2) as (Hra2 & Hat2).
  eexists _, w1, _, w2. split; [exact Hrun1|]. split; [exact Hrun2|].
  split; [exact Hra1|]. split; [exact Hra2|].
  split; [rewrite Hat2, Hat1, <- app_assoc; reflexivity|].
  assert (Hem : emitted w w2 =
                [admission_record first k e; decision_record (decision_of C e n1); rec1;
                 admission_record ingest_duplicate k e;
                 decision_record (decision_of C e (drawn w1)); rec2]).
  { apply emitted_app. rewrite Ha2, Ha1, <- app_assoc. reflexivity. }
  rewrite Hem. cbn [resp_event resp_decision].
  rewrite !filter_cons, filter_nil, !count_name_cons, !count_name_nil. cbn.
  rewrite Hn1, Hn2, Hs2.
  destruct (action_name_cases _ Hn1) as [E1|[E1|E1]];
    destruct (action_name_cases _ Hn2) as [E2|[E2|E2]];
    destruct Hfirst as [-> | ->];
    rewrite E1, E2; cbn;
    repeat (case_decide; try discriminate; try congruence); cbn;
    (split; [reflexivity|]);
    (split; [exists n1, (drawn w1); auto|]);
    (split; [reflexivity|]);
    (split; [lia|]);
    (split; [reflexivity|]);
    (split; [lia|exact Hs1]).
Qed.

(** C6. Router determinism: routing the same Event twice, in whatever
    worlds, gives Decisions with the same route and the same risk level;
    only [decision_id] depends on when the call is made. *)
Theorem router_deterministic (e : Event) (w1 w2 : World) :
  exists d1 d2 w1' w2',
    route_event C e w1 = (Return d1, w1')
    /\ route_event C e w2 = (Return d2, w2')
    /\ route d1 = route d2
    /\ risk_level d1 = risk_level d2
    /\ decision_id d1 = uuid4 C (drawn w1)
    /\ decision_id d2 = uuid4 C (drawn w2).
Proof. eexists _, _, _, _. repeat split; reflexivity. Qed.

(** C7. Risk gate: for a decision whose risk level is above the configured
    threshold, or whose route is not supported, [execute_decision] returns
    an ActionResult with [status = noop] and a non-empty reason, and the
    underlying effect is not attempted. *)
Theorem risk_gate_noop (event : Event) (decision : Decision) (w : World) :
  risk_rank (risk_threshold C) < risk_rank (risk_level decision)
  \/ supported_route C (route decision) = false ->
  exists a w',
    execute_decision C event decision w = (Return a, w')
    /\ status a = "noop"
    /\ (exists why, a_reason a = Some why /\ why <> "")
    /\ attempted w' = attempted w.
Proof.
  intros Hgate.
  assert (Hg : gated C decision = true).
  { unfold gated, above_threshold. destruct Hgate as [Hr | Hu].
    - rewrite bool_decide_eq_true_2 by exact Hr. reflexivity.
    - rewrite Hu. apply orb_true_r. }
  unfold execute_decision. rewrite Hg. compute_run.
  eexists _, _. split; [reflexivity|]. cbn.
  split; [reflexivity|]. split; [|reflexivity].
  eexists. split; [reflexivity|].
  unfold gate_reason. destruct (above_threshold C decision); discriminate.
Qed.


(** C9. The Slack endpoint is the translation [slack_to_canonical] followed
    by the pipeline the API endpoint runs: same result, same world. *)
Theorem slack_adapter_refines (s : SlackIngestRequest) (key : option string)
    (w : World) :
  ingest_slack C s key w = ingest_api C (slack_to_canonical s) key w.
Proof. reflexivity. Qed.

(** C10. One key namespace for all endpoints: when a supplied key [k] is
    submitted through any endpoint and later, after any other requests,
    through any endpoint again, the later run is treated as a duplicate
    (its first record is [ingest_duplicate]) and returns the Event the
    earlier run returned, whatever the later request contains.  When [k]
    was not in the store, the earlier run is the one that created it. *)
Theorem shared_key_namespace (c1 c2 : Call) (k : string) (w : World)
    (between : list Call) :
  k <> "" -> call_key c1 = Some k -> call_key c2 = Some k ->
  exists resp1 w1 resp2 w2,
    run_call C c1 w = (Return resp1, w1)
    /\ run_call C c2 (run_calls C between w1) = (Return resp2, w2)
    /\ resp_event resp2 = resp_event resp1
    /\ head (names (emitted (run_calls C between w1) w2)) = Some ingest_duplicate
    /\ store w2 !! k = Some (resp_event resp1)
    /\ (store w !! k = None ->
        head (names (emitted w w1)) = Some ingest_created
        /\ resp_event resp1 = new_event C (call_request c1) (drawn w) (ticks w)).
Proof.
  intros Hk Hk1 Hk2.
  rewrite !run_call_process, Hk1, Hk2.
  assert (H1 : exists resp1 w1,
             _process_ingest C (call_request c1) (Some k) w = (Return resp1, w1)
             /\ store w1 !! k = Some (resp_event resp1)
             /\ (store w !! k = None ->
                 head (names (emitted w w1)) = Some ingest_created
                 /\ resp_event resp1 = new_event C (call_request c1) (drawn w) (ticks w))).
  { destruct (store w !! k) as [e|] eqn:Hlook.
    - destruct (run_duplicate C (call_request c1) k w e Hk Hlook)
        as (rec & w1 & Hrun & Hs & _).
      eexists _, w1. split; [exact Hrun|]. cbn. rewrite Hs. split; [exact Hlook|].
      discriminate.
    - destruct (run_new C (call_request c1) k w Hk Hlook)
        as (rec & w1 & Hrun & Hs & Ha & _).
      eexists _, w1. split; [exact Hrun|]. cbn. rewrite Hs.
      split; [apply lookup_insert_eq|]. intros _.
      rewrite (emitted_app _ _ _ Ha). split; reflexivity. }
  destruct H1 as (resp1 & w1 & Hrun1 & Hs1 & Hnew).
  pose proof (run_calls_store_stable C between w1 k _ Hs1) as Hlater.
  destruct (run_duplicate C (call_request c2) k _ _ Hk Hlater)
    as (rec & w2 & Hrun2 & Hs2 & Ha2 & _).
  eexists resp1, w1, _, w2. split; [exact Hrun1|]. split; [exact Hrun2|].
  cbn. rewrite Hs2, (emitted_app _ _ _ Ha2). auto.
Qed.

(** ** Two admissions with one key *)

Lemma step_holds (e : Event) (k : string) (s : Stage) (w : World) :
  store w !! k = Some e -> holds e s ->
  exists s' w', step C s w = (Return s', w') /\ holds e s' /\ store w' = store w.
Proof.
  intros Hlook Hs. destruct s as [r key|r k' [e'|]|k' e'|e'|e' d|[err|resp]];
    cbn in Hs; try contradiction; try discriminate.
  - injection Hs as ->. eexists _, _. split; [reflexivity|]. split; reflexivity.
  - subst e'. rewrite step_accepted. eexists _, _. split; [reflexivity|].
    split; reflexivity.
  - subst e'. destruct (step_routed C e d w) as (rec & w' & Hstep & Hst & _).
    eexists _, w'. split; [exact Hstep|]. split; [reflexivity|exact Hst].
  - eexists _, _. split; [reflexivity|]. split; [exact Hs|reflexivity].
Qed.

Lemma step_received_late (e : Event) (r : IngestRequest) (k : string) (w : World) :
  k <> "" -> store w !! k = Some e ->
  step C (Received r (Some k)) w = (Return (Looked r k (Some e)), w).
Proof.
  intros Hk Hlook. destruct k as [|a k]; [congruence|].
  compute_run. rewrite Hlook. reflexivity.
Qed.

Lemma interleave_holds (e : Event) (r2 : IngestRequest) (k : string)
    (schedule : list bool) :
  k <> "" ->
  forall (a b : Stage) (w : World) (a' b' : Stage) (w' : World),
    store w !! k = Some e ->
    holds e a ->
    holds e b \/ b = Received r2 (Some k) ->
    interleave C schedule a b w = (a', b', w') ->
    holds e a' /\ (holds e b' \/ b' = Received r2 (Some k)) /\ store w' !! k = Some e.
Proof.
  intros Hk. induction schedule as [|[|] rest IH]; intros a b w a' b' w' Hlook Ha Hb Hrun.
  - injection Hrun as <- <- <-. auto.
  - cbn [interleave run_stages] in Hrun.
    destruct (step_holds e k a w Hlook Ha) as (s' & w1 & Hstep & Hs' & Hst).
    rewrite Hstep in Hrun. apply (IH _ _ _ _ _ _) in Hrun; auto. congruence.
  - cbn [interleave run_stages] in Hrun. destruct Hb as [Hb | ->].
    + destruct (step_holds e k b w Hlook Hb) as (s' & w1 & Hstep & Hs' & Hst).
      rewrite Hstep in Hrun. apply (IH _ _ _ _ _ _) in Hrun; auto. congruence.
    + rewrite (step_received_late e r2 k w Hk Hlook) in Hrun.
      apply (IH _ _ _ _ _ _) in Hrun; auto. left. reflexivity.
Qed.

Lemma holds_observed (e : Event) (s : Stage) : holds e s -> observed s = Some e.
Proof.
  destruct s as [r key|r k' o|k' e'|e'|e' d|[err|resp]]; cbn;
    try contradiction; congruence.
Qed.

(** C5, as amended.  Admission reads the store with [get_event] and writes
    it later with a separate [set_event]: the lookup is a stage of its own
    and changes nothing.  When the first admission with a supplied key has
    done its lookup, created its Event and stored it (three stages) before
    the second admission with that key starts, then however the two
    requests are scheduled from there on, both work on the Event created
    by the first, and it is the one in the store. *)
Theorem admissions_in_turn_agree (r1 r2 : IngestRequest) (k : string) (w : World)
    (rest : list bool) (a b : Stage) (w' : World) :
  k <> "" -> store w !! k = None ->
  interleave C (true :: true :: true :: rest)
    (Received r1 (Some k)) (Received r2 (Some k)) w = (a, b, w') ->
  run_stages C 1 (Received r1 (Some k)) w = (Looked r1 k None, w)
  /\ observed a = Some (new_event C r1 (drawn w) (ticks w))
  /\ (observed b = Some (new_event C r1 (drawn w) (ticks w))
      \/ b = Received r2 (Some k))
  /\ store w' !! k = Some (new_event C r1 (drawn w) (ticks w)).
Proof.
  intros Hk Hlook Hrun.
  set (e := new_event C r1 (drawn w) (ticks w)) in *.
  assert (H1 : run_stages C 1 (Received r1 (Some k)) w = (Looked r1 k None, w)).
  { destruct k as [|c k]; [congruence|]. compute_run. rewrite Hlook. reflexivity. }
  split; [exact H1|].
  set (w3 := with_store (<[k := e]> (store w))
               (with_audit (audit w ++ [admission_record ingest_created k e])
                  (with_ticks (S (ticks w)) (with_drawn (S (drawn w)) w)))).
  assert (H3 : interleave C (true :: true :: true :: rest)
                 (Received r1 (Some k)) (Received r2 (Some k)) w
               = interleave C rest (Accepted e) (Received r2 (Some k)) w3).
  { cbn [interleave]. rewrite H1. cbn [run_stages]. compute_run.
    rewrite Hlook. reflexivity. }
  rewrite H3 in Hrun.
  assert (Hw3 : store w3 !! k = Some e) by apply lookup_insert_eq.
  destruct (interleave_holds e r2 k rest Hk (Accepted e) (Received r2 (Some k))
              w3 a b w' Hw3 eq_refl (or_intror eq_refl) Hrun) as (Ha & Hb & Hs).
  split; [apply holds_observed, Ha|]. split; [|exact Hs].
  destruct Hb as [Hb | ->]; [left; apply holds_observed, Hb|right; reflexivity].
Qed.

End Claims.

(** * The claims on the concrete deployment *)

(** C1 at key ["abc-1"]: a support request, then a Slack message under
    another key, then a billing request under ["abc-1"] again. *)
Lemma idempotent_admission_witness :
  "abc-1" <> ""
  /\ exists resp1 w1 resp2 w2,
       _process_ingest Demo.collaborators Demo.help_request (Some "abc-1")
         Demo.world0 = (Return resp1, w1)
       /\ _process_ingest Demo.collaborators Demo.other_request (Some "abc-1")
            (run_calls Demo.collaborators
               [SlackCall Demo.slack_message (Some "xyz-9")] w1)
          = (Return resp2, w2)
       /\ resp_event resp2 = resp_event resp1.
Proof.
  split; [discriminate|].
  destruct (idempotent_admission Demo.collaborators Demo.help_request
              Demo.other_request "abc-1" Demo.world0
              [SlackCall Demo.slack_message (Some "xyz-9")])
    as (resp1 & w1 & resp2 & w2 & H1 & H2 & H3 & _); [discriminate|].
  exists resp1, w1, resp2, w2. auto.
Defined.

(** C2 as stated fails: with the key absent, the error raised to the
    caller is not a client error carrying the reason code
    [missing_idempotency_key]; the code is only in the audit record. *)
Lemma missing_key_error_lacks_reason_code :
  ~ (exists status w',
       (400 <= status < 500)%Z
       /\ _process_ingest Demo.collaborators Demo.help_request None Demo.world0
          = (Raise (HTTPException status "missing_idempotency_key"), w')
       /\ store w' = store Demo.world0
       /\ emitted Demo.world0 w' = [rejection_record Demo.help_request]).
Proof. intros (status & w' & _ & Hrun & _). vm_compute in Hrun. discriminate. Qed.

Lemma missing_key_rejected_witness :
  (Some "" = None \/ Some "" = Some "")
  /\ exists w',
       _process_ingest Demo.collaborators Demo.help_request (Some "") Demo.world0
       = (Raise (HTTPException 400 "Missing Idempotency-Key header"), w')
       /\ emitted Demo.world0 w' = [rejection_record Demo.help_request]
       /\ store w' = store Demo.world0.
Proof.
  split; [right; reflexivity|].
  destruct (missing_key_rejected Demo.collaborators Demo.help_request (Some "")
              Demo.world0) as (w' & H1 & H2 & _ & _ & H3 & _);
    [right; reflexivity|].
  exists w'. auto.
Defined.

(** C3 on a request whose effect raises (an empty ticket). *)
Lemma actuation_failure_absorbed_witness :
  exists event decision w_act w_eff err,
    run_stages Demo.collaborators 4 (Received Demo.empty_ticket (Some "abc-1"))
      Demo.world0 = (Routed event decision, w_act)
    /\ execute_decision Demo.collaborators event decision w_act = (Raise err, w_eff)
    /\ exists w',
         _process_ingest Demo.collaborators Demo.empty_ticket (Some "abc-1")
           Demo.world0
         = (Return {| resp_event := event; resp_decision := decision |}, w')
         /\ count_name action_failed (emitted Demo.world0 w') = 1.
Proof.
  eexists _, _, _, _, _.
  split; [vm_compute; reflexivity|]. split; [vm_compute; reflexivity|].
  edestruct (actuation_failure_absorbed Demo.collaborators Demo.empty_ticket
               (Some "abc-1") Demo.world0 4) as (w' & H1 & H2 & _);
    [vm_compute; reflexivity|vm_compute; reflexivity|].
  exists w'. split; [exact H1|exact H2].
Defined.

(** The effect is attempted once in each of two runs under one key, and
    [str(e)] of an [HTTPException] shows its status code. *)
Example resubmission_acts_again :
  let w1 := snd (_process_ingest Demo.collaborators Demo.help_request
                   (Some "abc-1") Demo.world0) in
  let w2 := snd (_process_ingest Demo.collaborators Demo.help_request
                   (Some "abc-1") w1) in
  (length (attempted Demo.world0), length (attempted w1), length (attempted w2))
  = (0, 1, 2).
Proof. vm_compute. reflexivity. Qed.

Example http_exception_str :
  exn_str (HTTPException 400 "Missing Idempotency-Key header")
  = "400: Missing Idempotency-Key header".
Proof. vm_compute. reflexivity. Qed.

(** C4 at key ["abc-1"], submitted twice with different content. *)
Lemma duplicate_rerouted_witness :
  "abc-1" <> ""
  /\ exists resp1 w1 resp2 w2,
       _process_ingest Demo.collaborators Demo.help_request (Some "abc-1")
         Demo.world0 = (Return resp1, w1)
       /\ _process_ingest Demo.collaborators Demo.other_request (Some "abc-1") w1
          = (Return resp2, w2)
       /\ routed_and_acted Demo.collaborators Demo.other_request "abc-1" w1
            resp2 w2
       /\ attempted w2
          = attempted Demo.world0
            ++ attempt_of Demo.collaborators (resp_event resp1) (resp_decision resp1)
            ++ attempt_of Demo.collaborators (resp_event resp2) (resp_decision resp2)
       /\ count_name decision_created (emitted Demo.world0 w2) = 2
       /\ resp_event resp2 = resp_event resp1.
Proof.
  split; [discriminate|].
  destruct (duplicate_rerouted Demo.collaborators Demo.help_request
              Demo.other_request "abc-1" Demo.world0)
    as (resp1 & w1 & resp2 & w2 & H1 & H2 & _ & Hra & Hat & H3 & _ & _ & _ & H4 & _);
    [discriminate|].
  exists resp1, w1, resp2, w2. auto 10.
Defined.

(** C5 as stated fails: two first-time admissions with key ["k"], both
    doing their lookup before either stores, both find the key absent;
    each creates its own Event and returns it, so two distinct Events
    exist for one key. *)
Lemma racing_admissions_create_two_events :
  exists resp1 resp2 w',
    Demo.world0.(store) !! "k" = None
    /\ interleave Demo.collaborators
         [true; false; true; true; true; true; false; false; false; false]
         (Received Demo.help_request (Some "k"))
         (Received Demo.other_request (Some "k")) Demo.world0
       = (Finished (Return resp1), Finished (Return resp2), w')
    /\ resp_event resp1 <> resp_event resp2
    /\ event_id (resp_event resp1) <> event_id (resp_event resp2)
    /\ count_name ingest_created (audit w') = 2.
Proof.
  eexists _, _, _. split; [reflexivity|]. split; [vm_compute; reflexivity|].
  split; [|split]; vm_compute; [discriminate|discriminate|reflexivity].
Qed.

Lemma admissions_in_turn_agree_witness :
  "k" <> ""
  /\ Demo.world0.(store) !! "k" = None
  /\ exists a b w',
       interleave Demo.collaborators
         [true; true; true; false; true; false; false; true; false]
         (Received Demo.help_request (Some "k"))
         (Received Demo.other_request (Some "k")) Demo.world0 = (a, b, w')
       /\ observed a = Some (new_event Demo.collaborators Demo.help_request 0 0)
       /\ (observed b = Some (new_event Demo.collaborators Demo.help_request 0 0)
           \/ b = Received Demo.other_request (Some "k")).
Proof.
  split; [discriminate|]. split; [reflexivity|].
  eexists _, _, _. split; [vm_compute; reflexivity|].
  edestruct (admissions_in_turn_agree Demo.collaborators Demo.help_request
               Demo.other_request "k" Demo.world0
               [false; true; false; false; true; false])
    as (_ & Ha & Hb & _);
    [discriminate|reflexivity|vm_compute; reflexivity|].
  split; [exact Ha|exact Hb].
Defined.

(** C7 on a decision above the threshold of the deployment. *)
Lemma risk_gate_noop_witness :
  risk_rank (risk_threshold Demo.collaborators) < risk_rank High
  /\ exists a w',
       execute_decision Demo.collaborators
         (new_event Demo.collaborators Demo.help_request 0 0)
         {| decision_id := "d-1"; d_event_id := "uuid-0"; route := "support";
            risk_level := High; reason := "urgent" |} Demo.world0
       = (Return a, w')
       /\ status a = "noop"
       /\ attempted w' = [].
Proof.
  split; [cbn; lia|].
  destruct (risk_gate_noop Demo.collaborators
              (new_event Demo.collaborators Demo.help_request 0 0)
              {| decision_id := "d-1"; d_event_id := "uuid-0"; route := "support";
                 risk_level := High; reason := "urgent" |} Demo.world0)
    as (a & w' & H1 & H2 & _ & H3); [left; cbn; lia|].
  exists a, w'. auto.
Defined.

(** C10: key ["abc-1"] first through [/ingest/api], later through
    [/ingest/slack]. *)
Lemma shared_key_namespace_witness :
  "abc-1" <> ""
  /\ exists resp1 w1 resp2 w2,
       run_call Demo.collaborators (ApiCall Demo.help_request (Some "abc-1"))
         Demo.world0 = (Return resp1, w1)
       /\ run_call Demo.collaborators (SlackCall Demo.slack_message (Some "abc-1"))
            (run_calls Demo.collaborators
               [ApiCall Demo.other_request (Some "other")] w1)
          = (Return resp2, w2)
       /\ resp_event resp2 = resp_event resp1
       /\ source (resp_event resp2) = "api".
Proof.
  split; [discriminate|].
  destruct (shared_key_namespace Demo.collaborators
              (ApiCall Demo.help_request (Some "abc-1"))
              (SlackCall Demo.slack_message (Some "abc-1")) "abc-1" Demo.world0
              [ApiCall Demo.other_request (Some "other")])
    as (resp1 & w1 & resp2 & w2 & H1 & H2 & H3 & _ & _ & H4);
    [discriminate|reflexivity|reflexivity|].
  exists resp1, w1, resp2, w2. split; [exact H1|]. split; [exact H2|].
  split; [exact H3|]. rewrite H3. destruct (H4 eq_refl) as (_ & ->). reflexivity.
Defined.

(** * Further properties of the pipeline *)

#[local] Set Warnings "-clear-no-such-hyp".

Lemma count_name_app (n : EventName) (l1 l2 : list AuditRecord) :
  count_name n (l1 ++ l2) = count_name n l1 + count_name n l2.
Proof. unfold count_name. rewrite filter_app, length_app. reflexivity. Qed.

Lemma run_calls_app (C : Collaborators) (cs1 cs2 : list Call) (w : World) :
  run_calls C (cs1 ++ cs2) w = run_calls C cs2 (run_calls C cs1 w).
Proof.
  revert w. induction cs1 as [|c cs1 IH]; intros w; [reflexivity|].
  cbn [app run_calls]. apply IH.
Qed.

Lemma creates_supplied (k : string) (w : World) :
  k <> "" -> creates (Some k) w = bool_decide (store w !! k = None).
Proof. destruct k; [congruence|reflexivity]. Qed.

Lemma creates_missing (key : option string) (w : World) :
  key_supplied key = false -> creates key w = false.
Proof. destruct key as [[|a k]|]; [reflexivity|discriminate|reflexivity]. Qed.

Lemma supplied_key_supplied (k : string) : k <> "" -> supplied_key (Some k) = {[ k ]}.
Proof. destruct k; [congruence|reflexivity]. Qed.

Lemma supplied_key_missing (key : option string) :
  key_supplied key = false -> supplied_key key = ∅.
Proof. destruct key as [[|a k]|]; [reflexivity|discriminate|reflexivity]. Qed.

Lemma records_of_supplied (k : string) : k <> "" -> records_of (Some k) = 3.
Proof. destruct k; [congruence|reflexivity]. Qed.

Section MoreFacts.

Variable C : Collaborators.

Lemma execute_ticks (e : Event) (d : Decision) (w w' : World)
    (o : outcome ActionResult) :
  execute_decision C e d w = (o, w') -> ticks w' = ticks w.
Proof.
  unfold execute_decision, attempt_effect.
  destruct (gated C d); compute_run.
  - intros [= <- <-]. reflexivity.
  - destruct (effect C e d (attempted w)); intros [= <- <-]; reflexivity.
Qed.

Lemma process_ticks (r : IngestRequest) (key : option string) (w : World) :
  ticks (snd (_process_ingest C r key w))
  = ticks w + (if creates key w then 1 else 0).
Proof.
  destruct key as [[|a k]|]; [cbn; lia| |cbn; lia].
  cbn [creates].
  destruct (store w !! String a k) as [existing|] eqn:Hlook.
  - rewrite bool_decide_eq_false_2 by discriminate.
    compute_run. rewrite Hlook. compute_run.
    destruct (execute_decision C existing _ _) as [[err|res] w'] eqn:He;
      apply execute_ticks in He; cbn in *; lia.
  - rewrite bool_decide_eq_true_2 by reflexivity.
    compute_run. rewrite Hlook. compute_run. rewrite Hlook. compute_run.
    destruct (execute_decision C _ _ _) as [[err|res] w'] eqn:He;
      apply execute_ticks in He; cbn in *; lia.
Qed.

(** What one run does to the log, the clock and the store. *)
Lemma run_summary (r : IngestRequest) (key : option string) (w : World) :
  exists l,
    audit (snd (_process_ingest C r key w)) = audit w ++ l
    /\ length l = records_of key
    /\ count_name ingest_created l = (if creates key w then 1 else 0)
    /\ size (store (snd (_process_ingest C r key w)))
       = size (store w) + (if creates key w then 1 else 0)
    /\ dom (store (snd (_process_ingest C r key w)))
       = dom (store w) ∪ supplied_key key
    /\ (creates key w = false ->
        store (snd (_process_ingest C r key w)) = store w).
Proof.
  destruct (key_supplied key) eqn:Hkey.
  - destruct (key_supplied_inv _ Hkey) as (k & -> & Hk).
    rewrite creates_supplied, supplied_key_supplied, records_of_supplied by exact Hk.
    destruct (store w !! k) as [e|] eqn:Hlook.
    + destruct (run_duplicate C r k w e Hk Hlook) as (rec & w' & -> & Hs & Ha & Hn & _).
      rewrite bool_decide_eq_false_2 by discriminate.
      eexists. split; [exact Ha|]. cbn [snd]. rewrite Hs.
      split; [reflexivity|]. split.
      { rewrite !count_name_cons, count_name_nil. cbn.
        destruct (action_name_cases _ Hn) as [E|[E|E]]; rewrite E;
          repeat (case_decide; try discriminate; try congruence); reflexivity. }
      split; [lia|]. split; [|reflexivity].
      assert (k ∈ dom (store w)) by (apply elem_of_dom; eauto). set_solver.
    + destruct (run_new C r k w Hk Hlook) as (rec & w' & -> & Hs & Ha & Hn & _).
      rewrite bool_decide_eq_true_2 by reflexivity.
      eexists. split; [exact Ha|]. cbn [snd]. rewrite Hs.
      split; [reflexivity|]. split.
      { rewrite !count_name_cons, count_name_nil. cbn.
        destruct (action_name_cases _ Hn) as [E|[E|E]]; rewrite E;
          repeat (case_decide; try discriminate; try congruence); reflexivity. }
      split; [rewrite map_size_insert_None by exact Hlook; lia|].
      split; [rewrite dom_insert_L; set_solver|discriminate].
  - rewrite run_missing, creates_missing, supplied_key_missing by exact Hkey.
    unfold records_of. rewrite Hkey. cbn [snd store with_audit audit].
    exists [rejection_record r]. split; [reflexivity|]. split; [reflexivity|].
    split; [reflexivity|]. split; [lia|]. split; [set_solver|reflexivity].
Qed.

Lemma run_call_summary (c : Call) (w : World) :
  exists l,
    audit (snd (run_call C c w)) = audit w ++ l
    /\ length l = records_of (call_key c)
    /\ count_name ingest_created l = (if creates (call_key c) w then 1 else 0)
    /\ size (store (snd (run_call C c w)))
       = size (store w) + (if creates (call_key c) w then 1 else 0)
    /\ dom (store (snd (run_call C c w)))
       = dom (store w) ∪ supplied_key (call_key c)
    /\ (creates (call_key c) w = false -> store (snd (run_call C c w)) = store w).
Proof. rewrite run_call_process. apply run_summary. Qed.

Lemma run_call_ticks (c : Call) (w : World) :
  ticks (snd (run_call C c w))
  = ticks w + (if creates (call_key c) w then 1 else 0).
Proof. rewrite run_call_process. apply process_ticks. Qed.

(** What a list of calls does to the log, the clock and the store. *)
Lemma calls_summary (cs : list Call) (w : World) :
  exists l,
    audit (run_calls C cs w) = audit w ++ l
    /\ length l = records_of_calls cs
    /\ count_name ingest_created l + size (store w) = size (store (run_calls C cs w))
    /\ ticks (run_calls C cs w) + size (store w)
       = ticks w + size (store (run_calls C cs w))
    /\ dom (store (run_calls C cs w)) = dom (store w) ∪ supplied_keys cs.
Proof.
  revert w. induction cs as [|c cs IH]; intros w.
  - exists []. cbn. rewrite app_nil_r. repeat split; try lia. set_solver.
  - cbn [run_calls records_of_calls supplied_keys].
    destruct (run_call_summary c w) as (l1 & Ha1 & Hl1 & Hc1 & Hs1 & Hd1 & _).
    pose proof (run_call_ticks c w) as Ht1.
    destruct (IH (snd (run_call C c w))) as (l2 & Ha2 & Hl2 & Hc2 & Ht2 & Hd2).
    exists (l1 ++ l2). rewrite Ha2, Ha1, <- app_assoc.
    split; [reflexivity|]. rewrite length_app, count_name_app.
    split; [lia|]. split; [lia|]. split; [lia|].
    rewrite Hd2, Hd1. set_solver.
Qed.

Lemma known_key_creates_nothing (key : option string) (w : World) :
  supplied_key key ⊆ dom (store w) -> creates key w = false.
Proof.
  destruct key as [[|a k]|]; [reflexivity| |reflexivity].
  cbn. intros Hsub. apply bool_decide_eq_false_2.
  assert (Hin : String a k ∈ dom (store w)) by set_solver.
  apply elem_of_dom in Hin. destruct Hin as [e He]. rewrite He. discriminate.
Qed.

Lemma calls_known (cs : list Call) (w : World) :
  supplied_keys cs ⊆ dom (store w) ->
  store (run_calls C cs w) = store w
  /\ count_name ingest_created (emitted w (run_calls C cs w)) = 0.
Proof.
  revert w. induction cs as [|c cs IH]; intros w Hsub.
  - split; [reflexivity|]. unfold emitted. rewrite drop_all. reflexivity.
  - cbn [run_calls supplied_keys] in *.
    assert (Hc : creates (call_key c) w = false).
    { apply known_key_creates_nothing. set_solver. }
    destruct (run_call_summary c w) as (l1 & Ha1 & _ & Hc1 & _ & _ & Hst).
    rewrite Hc in Hc1. specialize (Hst Hc).
    destruct (IH (snd (run_call C c w))) as (Hs2 & Hc2).
    { rewrite Hst. set_solver. }
    split; [congruence|].
    destruct (calls_summary cs (snd (run_call C c w))) as (l2 & Ha2 & _).
    rewrite (emitted_app _ _ _ Ha2) in Hc2.
    erewrite emitted_app; [|rewrite Ha2, Ha1, <- app_assoc; reflexivity].
    rewrite count_name_app. lia.
Qed.

Lemma step_routed_return (e : Event) (d : Decision) (w w_ok : World)
    (a : ActionResult) :
  execute_decision C e d w = (Return a, w_ok) ->
  step C (Routed e d) w =
  (Return (Finished (Return {| resp_event := e; resp_decision := d |})),
   with_audit (audit w_ok ++ [action_record a]) w_ok).
Proof. intros H. cbn [step]. unfold_run. rewrite H. reflexivity. Qed.

End MoreFacts.

Lemma new_event_ext (C1 C2 : Collaborators) (r : IngestRequest) (n t : nat) :
  same_routing C1 C2 -> new_event C1 r n t = new_event C2 r n t.
Proof. intros (Hu & Ht & _). unfold new_event. rewrite Hu, Ht. reflexivity. Qed.

Lemma decision_of_ext (C1 C2 : Collaborators) (e : Event) (n : nat) :
  same_routing C1 C2 -> decision_of C1 e n = decision_of C2 e n.
Proof.
  intros (Hu & _ & Hr & Hk & Hy). unfold decision_of.
  rewrite Hu, Hr, Hk, Hy. reflexivity.
Qed.

Section Extras.

Variable C : Collaborators.

(** X1. The pipeline raises exactly when the idempotency key is absent or
    empty, and then the exception is [HTTPException(400, "Missing
    Idempotency-Key header")]; whenever it returns, the key is non-empty
    and the Event in the response is the store's entry for that key. *)
Theorem raises_only_without_key (r : IngestRequest) (key : option string)
    (w : World) :
  match _process_ingest C r key w with
  | (Raise e, _) =>
      key_supplied key = false
      /\ e = HTTPException 400 "Missing Idempotency-Key header"
  | (Return resp, w') =>
      exists k, key = Some k /\ k <> "" /\ store w' !! k = Some (resp_event resp)
  end.
Proof.
  destruct (key_supplied key) eqn:Hkey.
  - destruct (key_supplied_inv _ Hkey) as (k & -> & Hk).
    destruct (store w !! k) as [e|] eqn:Hlook.
    + destruct (run_duplicate C r k w e Hk Hlook) as (rec & w' & -> & Hs & _).
      exists k. rewrite Hs. auto.
    + destruct (run_new C r k w Hk Hlook) as (rec & w' & -> & Hs & _).
      exists k. rewrite Hs, lookup_insert_eq. auto.
  - rewrite run_missing by exact Hkey. auto.
Qed.

(** X2. On a key that is already in the store the request body plays no
    part: any two bodies give the same response and the same world, log
    records included. *)
Theorem duplicate_ignores_request (r r' : IngestRequest) (k : string) (w : World) :
  k <> "" -> is_Some (store w !! k) ->
  _process_ingest C r (Some k) w = _process_ingest C r' (Some k) w.
Proof.
  intros Hk [e Hlook]. destruct k as [|a k]; [congruence|].
  compute_run. rewrite Hlook. reflexivity.
Qed.

(** X4. A run changes the store at most at its own key, and only when that
    key has no entry: every other key, and every key that has an entry,
    reads the same before and after. *)
Theorem run_touches_only_its_key (r : IngestRequest) (key : option string)
    (w : World) (k' : string) :
  key <> Some k' \/ is_Some (store w !! k') ->
  store (snd (_process_ingest C r key w)) !! k' = store w !! k'.
Proof.
  intros [Hne | [e He]].
  - destruct (key_supplied key) eqn:Hkey.
    + destruct (key_supplied_inv _ Hkey) as (k & -> & Hk).
      destruct (store w !! k) as [e|] eqn:Hlook.
      * destruct (run_duplicate C r k w e Hk Hlook) as (rec & w' & -> & Hs & _).
        cbn. rewrite Hs. reflexivity.
      * destruct (run_new C r k w Hk Hlook) as (rec & w' & -> & Hs & _).
        cbn. rewrite Hs. apply lookup_insert_ne. congruence.
    + rewrite run_missing by exact Hkey. reflexivity.
  - rewrite He. apply process_store_stable, He.
Qed.

(** X5. After any list of calls, through either endpoint, the keys of the
    store are the keys it had before together with the non-empty keys the
    calls carried. *)
Theorem store_keys_after_calls (cs : list Call) (w : World) :
  dom (store (run_calls C cs w)) = dom (store w) ∪ supplied_keys cs.
Proof. destruct (calls_summary C cs w) as (l & _ & _ & _ & _ & Hd). exact Hd. Qed.

(** X6. The audit log is append-only over any list of calls: the old log
    is a prefix of the new one, and the calls add three records for each
    call with a non-empty key and one for each call without. *)
Theorem audit_grows_by_call (cs : list Call) (w : World) :
  audit (run_calls C cs w) = audit w ++ emitted w (run_calls C cs w)
  /\ length (emitted w (run_calls C cs w)) = records_of_calls cs.
Proof.
  destruct (calls_summary C cs w) as (l & Ha & Hl & _).
  rewrite (emitted_app _ _ _ Ha). auto.
Qed.

(** X7. Over any list of calls, the number of [ingest_created] records
    emitted and the number of clock readings both equal the number of
    entries added to the store: one Event, one timestamp and one
    creation record per new key. *)
Theorem created_records_match_store (cs : list Call) (w : World) :
  count_name ingest_created (emitted w (run_calls C cs w)) + size (store w)
  = size (store (run_calls C cs w))
  /\ ticks (run_calls C cs w) + size (store w)
     = ticks w + size (store (run_calls C cs w)).
Proof.
  destruct (calls_summary C cs w) as (l & Ha & _ & Hc & Ht & _).
  rewrite (emitted_app _ _ _ Ha). auto.
Qed.

(** X12. Replaying a whole batch of calls (at-least-once delivery) leaves
    the store as the first pass left it and creates no Event: the replay
    emits no [ingest_created] record. *)
Theorem replay_leaves_store (cs : list Call) (w : World) :
  store (run_calls C (cs ++ cs) w) = store (run_calls C cs w)
  /\ count_name ingest_created
       (emitted (run_calls C cs w) (run_calls C (cs ++ cs) w)) = 0.
Proof.
  rewrite run_calls_app. apply calls_known.
  destruct (calls_summary C cs w) as (l & _ & _ & _ & _ & Hd).
  rewrite Hd. set_solver.
Qed.

(** X8. When the actuator returns an ActionResult, the run's last record
    is the one built from it: named [action_executed] when its status is
    ["executed"] and [action_noop] for any other status, with its ids,
    status, artifact path and reason as fields.  The run emits no
    [action_failed] record and returns [(event, decision)]. *)
Theorem success_logged_by_status (r : IngestRequest) (key : option string)
    (w : World) (n : nat) (event : Event) (decision : Decision)
    (w_act w_ok : World) (a : ActionResult) :
  run_stages C n (Received r key) w = (Routed event decision, w_act) ->
  execute_decision C event decision w_act = (Return a, w_ok) ->
  exists w',
    _process_ingest C r key w =
      (Return {| resp_event := event; resp_decision := decision |}, w')
    /\ last (emitted w w') = Some (action_record a)
    /\ count_name action_failed (emitted w w') = 0
    /\ length (emitted w w') = 3.
Proof.
  intros Hn He.
  destruct (routed_inv C _ _ _ _ _ _ _ Hn) as (first & Ha & Hfirst & Hrun).
  destruct (execute_frame C _ _ _ _ _ He) as (Hs & Haud & _).
  set (w' := with_audit (audit w_ok ++ [action_record a]) w_ok).
  assert (Hem : emitted w w' = [first; decision_record decision; action_record a]).
  { apply emitted_app. cbn. rewrite Haud, Ha, <- app_assoc. reflexivity. }
  exists w'. split.
  - apply process_from_stages. rewrite Hrun. cbn [run_stages].
    rewrite (step_routed_return C _ _ _ _ _ He). reflexivity.
  - rewrite Hem. split; [reflexivity|]. split; [|reflexivity].
    rewrite !count_name_cons, count_name_nil. cbn.
    destruct (decide (event_name first = action_failed)); [contradiction|].
    destruct (status a =? "executed")%string;
      repeat (case_decide; try discriminate; try congruence); reflexivity.
Qed.

(** X9. A first submission through the Slack endpoint creates and stores
    an Event with [event_type = "support_request"], [source = "slack"],
    the Slack user as actor, a payload whose only key is ["text"] and a
    metadata whose only keys are ["channel"] and ["ts"]. *)
Theorem slack_first_admission (s : SlackIngestRequest) (k : string) (w : World) :
  k <> "" -> store w !! k = None ->
  exists resp w',
    ingest_slack C s (Some k) w = (Return resp, w')
    /\ store w' !! k = Some (resp_event resp)
    /\ event_type (resp_event resp) = "support_request"
    /\ source (resp_event resp) = "slack"
    /\ actor (resp_event resp) = user s
    /\ payload (resp_event resp) !! "text" = Some (text s)
    /\ dom (payload (resp_event resp)) = {[ "text" ]}
    /\ metadata (resp_event resp) !! "channel" = Some (channel s)
    /\ metadata (resp_event resp) !! "ts" = Some (ts s)
    /\ dom (metadata (resp_event resp)) = {[ "channel"; "ts" ]}.
Proof.
  intros Hk Hlook. change (ingest_slack C s) with (_process_ingest C (slack_to_canonical s)).
  destruct (run_new C (slack_to_canonical s) k w Hk Hlook)
    as (rec & w' & Hrun & Hs & _).
  eexists _, w'. split; [exact Hrun|]. cbn. rewrite Hs, lookup_insert_eq.
  split; [reflexivity|]. do 3 (split; [reflexivity|]).
  split; [apply lookup_singleton_eq|].
  split; [apply dom_singleton_L|].
  split; [apply lookup_insert_eq|].
  split; [rewrite lookup_insert_ne by discriminate; apply lookup_singleton_eq|].
  rewrite dom_insert_L, dom_singleton_L. reflexivity.
Qed.

(** X11. The audit records of a run are about what the run returns: with a
    non-empty key, the first record carries the key and the id, type and
    source of the Event in the response ([ingest_created] when the key
    was new, [ingest_duplicate] otherwise), and the second is the
    [decision_created] record of the Decision in the response. *)
Theorem log_matches_response (r : IngestRequest) (k : string) (w : World) :
  k <> "" ->
  exists resp w' rec,
    _process_ingest C r (Some k) w = (Return resp, w')
    /\ emitted w w' =
       [admission_record
          (if creates (Some k) w then ingest_created else ingest_duplicate)
          k (resp_event resp);
        decision_record (resp_decision resp); rec]
    /\ is_action_name (event_name rec) = true.
Proof.
  intros Hk. rewrite creates_supplied by exact Hk.
  destruct (store w !! k) as [e|] eqn:Hlook.
  - destruct (run_duplicate C r k w e Hk Hlook) as (rec & w' & Hrun & _ & Ha & Hn & _).
    rewrite bool_decide_eq_false_2 by discriminate.
    eexists _, w', rec. split; [exact Hrun|].
    split; [apply emitted_app, Ha|exact Hn].
  - destruct (run_new C r k w Hk Hlook) as (rec & w' & Hrun & _ & Ha & Hn & _).
    rewrite bool_decide_eq_true_2 by reflexivity.
    eexists _, w', rec. split; [exact Hrun|].
    split; [apply emitted_app, Ha|exact Hn].
Qed.

End Extras.

(** X3. The response and the store do not depend on the actuator: two
    deployments with the same uuid source, clock and routing policy give,
    on every request, key and world, the same result (the same Event and
    Decision, or the same exception) and the same store, whatever their
    actuators do. *)
Theorem response_independent_of_actuator (C1 C2 : Collaborators)
    (r : IngestRequest) (key : option string) (w : World) :
  same_routing C1 C2 ->
  fst (_process_ingest C1 r key w) = fst (_process_ingest C2 r key w)
  /\ store (snd (_process_ingest C1 r key w))
     = store (snd (_process_ingest C2 r key w)).
Proof.
  intros Hsame.
  destruct (key_supplied key) eqn:Hkey.
  - destruct (key_supplied_inv _ Hkey) as (k & -> & Hk).
    destruct (store w !! k) as [e|] eqn:Hlook.
    + destruct (run_duplicate C1 r k w e Hk Hlook) as (rec1 & w1 & -> & Hs1 & _).
      destruct (run_duplicate C2 r k w e Hk Hlook) as (rec2 & w2 & -> & Hs2 & _).
      cbn. rewrite Hs1, Hs2, (decision_of_ext C1 C2) by exact Hsame. auto.
    + destruct (run_new C1 r k w Hk Hlook) as (rec1 & w1 & -> & Hs1 & _).
      destruct (run_new C2 r k w Hk Hlook) as (rec2 & w2 & -> & Hs2 & _).
      cbn. rewrite Hs1, Hs2, (new_event_ext C1 C2), (decision_of_ext C1 C2)
        by exact Hsame. auto.
  - rewrite !run_missing by exact Hkey. auto.
Qed.

Lemma interleave_app (C : Collaborators) (s1 s2 : list bool) (a b : Stage)
    (w : World) :
  interleave C (s1 ++ s2) a b w =
  interleave C s2 (interleave C s1 a b w).1.1 (interleave C s1 a b w).1.2
    (interleave C s1 a b w).2.
Proof.
  revert a b w. induction s1 as [|[|] s1 IH]; intros a b w; [reflexivity| |].
  - cbn [app interleave]. destruct (run_stages C 1 a w). apply IH.
  - cbn [app interleave]. destruct (run_stages C 1 b w). apply IH.
Qed.

(** X10. The race, for every deployment, key and pair of requests: when two
    first-time admissions with one non-empty key take their steps in
    turn, so that both look the key up before either stores, both
    requests return, each with an Event of its own (built from its own
    request, with its own uuid draw and clock reading), and the log
    holds two [ingest_created] records for the one key. *)
Theorem race_returns_two_events (C : Collaborators) (r1 r2 : IngestRequest)
    (k : string) (w : World) :
  k <> "" -> store w !! k = None ->
  exists resp1 resp2 w',
    interleave C [true; false; true; false; true; false; true; false; true; false]
      (Received r1 (Some k)) (Received r2 (Some k)) w
    = (Finished (Return resp1), Finished (Return resp2), w')
    /\ resp_event resp1 = new_event C r1 (drawn w) (ticks w)
    /\ resp_event resp2 = new_event C r2 (S (drawn w)) (S (ticks w))
    /\ count_name ingest_created (emitted w w') = 2.
Proof.
  intros Hk Hlook.
  set (e1 := new_event C r1 (drawn w) (ticks w)).
  set (e2 := new_event C r2 (S (drawn w)) (S (ticks w))).
  set (d1 := decision_of C e1 (S (S (drawn w)))).
  set (d2 := decision_of C e2 (S (S (S (drawn w))))).
  assert (H8 : exists w8,
             interleave C [true; false; true; false; true; false; true; false]
               (Received r1 (Some k)) (Received r2 (Some k)) w
             = (Routed e1 d1, Routed e2 d2, w8)
             /\ audit w8 = audit w ++ [admission_record ingest_created k e1;
                                       admission_record ingest_created k e2;
                                       decision_record d1; decision_record d2]).
  { destruct k as [|c k]; [congruence|].
    eexists. split.
    - cbn [interleave run_stages]. compute_run. rewrite Hlook. compute_run.
      rewrite Hlook. compute_run. rewrite lookup_insert_eq. compute_run.
      reflexivity.
    - cbn. rewrite <- !app_assoc. reflexivity. }
  destruct H8 as (w8 & H8 & Ha8).
  change [true; false; true; false; true; false; true; false; true; false]
    with ([true; false; true; false; true; false; true; false] ++ [true; false]).
  rewrite interleave_app, H8. cbn [fst snd interleave run_stages].
  destruct (step_routed C e1 d1 w8) as (rec1 & w9 & Hs1 & _ & Ha9 & Hn1 & _).
  rewrite Hs1.
  destruct (step_routed C e2 d2 w9) as (rec2 & w10 & Hs2 & _ & Ha10 & Hn2 & _).
  rewrite Hs2.
  eexists _, _, w10. split; [reflexivity|]. split; [reflexivity|].
  split; [reflexivity|].
  erewrite emitted_app; [|rewrite Ha10, Ha9, Ha8, <- !app_assoc; reflexivity].
  cbn [app]. rewrite !count_name_cons, count_name_nil. cbn.
  destruct (action_name_cases _ Hn1) as [E1|[E1|E1]];
    destruct (action_name_cases _ Hn2) as [E2|[E2|E2]];
    rewrite E1, E2;
    repeat (case_decide; try discriminate; try congruence); reflexivity.
Qed.

(** X13. A rejection looks at nothing of the request but its [event_type]
    and [source]: two requests that agree on these two fields and come
    without a key give the same exception and the same world, so actor,
    payload and metadata never reach the log on this path. *)
Theorem rejection_ignores_content (C : Collaborators) (r r' : IngestRequest)
    (key : option string) (w : World) :
  key = None \/ key = Some "" ->
  req_event_type r = req_event_type r' ->
  req_source r = req_source r' ->
  _process_ingest C r key w = _process_ingest C r' key w.
Proof.
  intros Hkey Ht Hs.
  assert (Hmiss : key_supplied key = false) by (destruct Hkey as [-> | ->]; reflexivity).
  rewrite !run_missing by exact Hmiss.
  unfold rejection_record. rewrite Ht, Hs. reflexivity.
Qed.

(** * The further properties on the concrete deployments *)

Lemma duplicate_ignores_request_witness :
  "abc-1" <> ""
  /\ _process_ingest Demo.collaborators Demo.help_request (Some "abc-1")
       (run_calls Demo.collaborators
          [ApiCall Demo.empty_ticket (Some "abc-1")] Demo.world0)
     = _process_ingest Demo.collaborators Demo.other_request (Some "abc-1")
         (run_calls Demo.collaborators
            [ApiCall Demo.empty_ticket (Some "abc-1")] Demo.world0).
Proof.
  split; [discriminate|].
  apply (duplicate_ignores_request Demo.collaborators Demo.help_request
           Demo.other_request "abc-1"); [discriminate|].
  vm_compute. eexists. reflexivity.
Defined.

Lemma response_independent_of_actuator_witness :
  same_routing Demo.collaborators Strict.collaborators
  /\ fst (_process_ingest Demo.collaborators Demo.help_request (Some "abc-1")
            Demo.world0)
     = fst (_process_ingest Strict.collaborators Demo.help_request (Some "abc-1")
              Demo.world0).
Proof.
  assert (H : same_routing Demo.collaborators Strict.collaborators).
  { repeat split; intros; reflexivity. }
  split; [exact H|].
  exact (proj1 (response_independent_of_actuator Demo.collaborators
                  Strict.collaborators Demo.help_request (Some "abc-1")
                  Demo.world0 H)).
Defined.

Lemma run_touches_only_its_key_witness :
  Some "abc-1" <> Some "abc-2"
  /\ store (snd (_process_ingest Demo.collaborators Demo.help_request
                   (Some "abc-1") Demo.world0)) !! "abc-2"
     = store Demo.world0 !! "abc-2".
Proof.
  split; [discriminate|].
  apply (run_touches_only_its_key Demo.collaborators). left. discriminate.
Defined.

Lemma success_logged_by_status_witness :
  exists event decision w_act w_ok a,
    run_stages Demo.collaborators 4 (Received Demo.help_request (Some "abc-1"))
      Demo.world0 = (Routed event decision, w_act)
    /\ execute_decision Demo.collaborators event decision w_act = (Return a, w_ok)
    /\ exists w',
         _process_ingest Demo.collaborators Demo.help_request (Some "abc-1")
           Demo.world0
         = (Return {| resp_event := event; resp_decision := decision |}, w')
         /\ last (emitted Demo.world0 w') = Some (action_record a).
Proof.
  eexists _, _, _, _, _.
  split; [vm_compute; reflexivity|]. split; [vm_compute; reflexivity|].
  edestruct (success_logged_by_status Demo.collaborators Demo.help_request
               (Some "abc-1") Demo.world0 4) as (w' & H1 & H2 & _);
    [vm_compute; reflexivity|vm_compute; reflexivity|].
  exists w'. split; [exact H1|exact H2].
Defined.

Lemma slack_first_admission_witness :
  "s-1" <> ""
  /\ store Demo.world0 !! "s-1" = None
  /\ exists resp w',
       ingest_slack Demo.collaborators Demo.slack_message (Some "s-1") Demo.world0
       = (Return resp, w')
       /\ source (resp_event resp) = "slack"
       /\ payload (resp_event resp) !! "text" = Some (VStr "printer on fire").
Proof.
  split; [discriminate|]. split; [reflexivity|].
  destruct (slack_first_admission Demo.collaborators Demo.slack_message "s-1"
              Demo.world0)
    as (resp & w' & H1 & _ & _ & H2 & _ & H3 & _); [discriminate|reflexivity|].
  exists resp, w'. auto.
Defined.

Lemma race_returns_two_events_witness :
  "k" <> ""
  /\ store Demo.world0 !! "k" = None
  /\ exists resp1 resp2 w',
       interleave Demo.collaborators
         [true; false; true; false; true; false; true; false; true; false]
         (Received Demo.help_request (Some "k"))
         (Received Demo.help_request (Some "k")) Demo.world0
       = (Finished (Return resp1), Finished (Return resp2), w')
       /\ resp_event resp1 = new_event Demo.collaborators Demo.help_request 0 0
       /\ resp_event resp2 = new_event Demo.collaborators Demo.help_request 1 1.
Proof.
  split; [discriminate|]. split; [reflexivity|].
  destruct (race_returns_two_events Demo.collaborators Demo.help_request
              Demo.help_request "k" Demo.world0)
    as (resp1 & resp2 & w' & H1 & H2 & H3 & _); [discriminate|reflexivity|].
  exists resp1, resp2, w'. auto.
Defined.

Lemma log_matches_response_witness :
  "abc-1" <> ""
  /\ exists resp w' rec,
       _process_ingest Demo.collaborators Demo.help_request (Some "abc-1")
         Demo.world0 = (Return resp, w')
       /\ emitted Demo.world0 w' =
          [admission_record ingest_created "abc-1" (resp_event resp);
           decision_record (resp_decision resp); rec].
Proof.
  split; [discriminate|].
  destruct (log_matches_response Demo.collaborators Demo.help_request "abc-1"
              Demo.world0) as (resp & w' & rec & H1 & H2 & _); [discriminate|].
  exists resp, w', rec. split; [exact H1|exact H2].
Defined.

Lemma rejection_ignores_content_witness :
  ((None : option string) = None \/ None = Some "")
  /\ req_event_type Demo.help_request = req_event_type Demo.empty_ticket
  /\ req_source Demo.help_request = req_source Demo.empty_ticket
  /\ _process_ingest Demo.collaborators Demo.help_request None Demo.world0
     = _process_ingest Demo.collaborators Demo.empty_ticket None Demo.world0.
Proof.
  split; [left; reflexivity|]. split; [reflexivity|]. split; [reflexivity|].
  apply (rejection_ignores_content Demo.collaborators); [left|..]; reflexivity.
Defined.
